(** * trackappartments: the listing store and the adaptive scheduler

    A shallow embedding of [scraper.py] (the SQLite-backed listing store,
    [get_seen_listing_urls], [save_listings], [scrape_apartments]) and of
    [main.py] ([is_quiet_hours], [get_next_interval],
    [run_scraper_with_scheduling]), followed by the properties of the
    specification that concern them.

    Conventions of the embedding:
    - a Python [str] is a [string]; [s[:100]] keeps the first 100 characters;
    - an SQL [TEXT] column is an [option string], [None] being [NULL];
    - the wall clock, the random draw and the browser are inputs of the
      functions that consult them;
    - Python numbers that may be [float] (the scrape intervals) are exact
      rationals [Q]; hours and minutes of the clock are integers [Z]. *)

From Stdlib Require Import ZArith QArith Qminmax Qround Lqa Ascii String List Lia.
From stdpp Require Import base decidable option list gmap strings.

#[local] Open Scope string_scope.
#[local] Open Scope list_scope.
#[local] Open Scope Z_scope.

(** ** config.py *)

Module config.
Record t := mk {
  SCRAPE_INTERVAL_MINUTES : Q;
  SCRAPE_INTERVAL_RANDOM_MINUTES : Q;
  SCRAPE_INTERVAL_NEW_LISTINGS_MINUTES : Q;
  SCRAPE_INTERVAL_NEW_LISTINGS_RANDOM_MINUTES : Q;
  QUIET_HOURS_ENABLED : bool;
  QUIET_HOURS_START : Z;
  QUIET_HOURS_END : Z
}.

(** The values written in [config.py]. *)
Definition shipped : t :=
  {| SCRAPE_INTERVAL_MINUTES := 5;
     SCRAPE_INTERVAL_RANDOM_MINUTES := 3;
     SCRAPE_INTERVAL_NEW_LISTINGS_MINUTES := 1;
     SCRAPE_INTERVAL_NEW_LISTINGS_RANDOM_MINUTES := 1 # 2;
     QUIET_HOURS_ENABLED := true;
     QUIET_HOURS_START := 21;
     QUIET_HOURS_END := 8 |}.
End config.

(** ** scraper.py: the listing store *)

(** A listing dictionary as [extract_listings] builds it: ["url"] starts as
    [None] and may be replaced by a string, every other key holds a string.
    A dictionary without the ["url"] key behaves like one holding [None]:
    [listing.get("url", "")] is falsy and [listing.get("url")] is [None]. *)
Module Listing.
Record t := mk {
  url : option string;
  title : string;
  address : string;
  price : string;
  rooms : string;
  area : string;
  extra_costs : string;
  wbs : string;
  image_url : string;
  raw_text : string;
  extracted_at : string
}.
End Listing.

(** A row of the [listings] table created by [init_database]. *)
Module Row.
Record t := mk {
  id : Z;
  url : option string;
  title : option string;
  address : option string;
  price : option string;
  rooms : option string;
  area : option string;
  extra_costs : option string;
  wbs : option string;
  image_url : option string;
  raw_text : option string;
  first_seen : option string;
  last_seen : option string;
  notified : Z
}.

(** [SET last_seen = ?] *)
Definition set_last_seen (now : string) (r : t) : t :=
  {| id := id r; url := url r; title := title r; address := address r;
     price := price r; rooms := rooms r; area := area r;
     extra_costs := extra_costs r; wbs := wbs r; image_url := image_url r;
     raw_text := raw_text r; first_seen := first_seen r;
     last_seen := Some now; notified := notified r |}.
End Row.

(** Exceptions that reach [scrape_apartments]; all are subclasses of
    Python's [Exception]. *)
Inductive exn :=
| IntegrityError (constraint : string)
| WebDriverException (msg : string).

Module scraper.

(** The database file: the rows of [listings] in rowid order and the
    counter SQLite keeps for [AUTOINCREMENT]. *)
Record db := mkdb {
  rows : list Row.t;
  seq : Z
}.

Definition empty_db : db := {| rows := []; seq := 0 |}.

(** [INTEGER PRIMARY KEY AUTOINCREMENT]: one more than the largest rowid
    the table has ever held. *)
Definition next_rowid (d : db) : Z :=
  Z.max (seq d) (foldr (λ r m, Z.max (Row.id r) m) 0 (rows d)) + 1.

(** [url TEXT UNIQUE]: a non-NULL value may occur once; NULLs never
    conflict. *)
Definition violates_unique (u : option string) (d : db) : bool :=
  match u with
  | None => false
  | Some s => bool_decide (Some s ∈ Row.url <$> rows d)
  end.

(** The row that the [INSERT INTO listings (...) VALUES (...)] of
    [save_listings] writes: the url column receives [listing.get("url")],
    [notified] its default. *)
Definition inserted_row (i : Z) (now : string) (l : Listing.t) : Row.t :=
  {| Row.id := i;
     Row.url := Listing.url l;
     Row.title := Some (Listing.title l);
     Row.address := Some (Listing.address l);
     Row.price := Some (Listing.price l);
     Row.rooms := Some (Listing.rooms l);
     Row.area := Some (Listing.area l);
     Row.extra_costs := Some (Listing.extra_costs l);
     Row.wbs := Some (Listing.wbs l);
     Row.image_url := Some (Listing.image_url l);
     Row.raw_text := Some (Listing.raw_text l);
     Row.first_seen := Some now;
     Row.last_seen := Some now;
     Row.notified := 0 |}.

(** The [INSERT] itself, refused when the url is already in the table. *)
Definition sql_insert (now : string) (l : Listing.t) (d : db) : exn + db :=
  if violates_unique (Listing.url l) d
  then inl (IntegrityError "UNIQUE constraint failed: listings.url")
  else
    let i := next_rowid d in
    inr {| rows := rows d ++ [inserted_row i now l]; seq := i |}.

(** [UPDATE listings SET last_seen = ? WHERE url = ?] *)
Definition sql_update (now url : string) (d : db) : db :=
  {| rows := (λ r, if bool_decide (Row.url r = Some url)
                   then Row.set_last_seen now r else r) <$> rows d;
     seq := seq d |}.

(** [SELECT url FROM listings WHERE url IS NOT NULL], collected in a set. *)
Definition get_seen_listing_urls (d : db) : gset string :=
  list_to_set (omap Row.url (rows d)).

(** [s[:100]] *)
Definition prefix100 (s : string) : string := String.substring 0 100 s.

(** The identifier [save_listings] computes for a record:
    [url = listing.get("url", "")], replaced by
    [listing.get("raw_text", "")[:100]] when [not url]. *)
Definition resolve (l : Listing.t) : string :=
  match Listing.url l with
  | Some u => if bool_decide (u = "") then prefix100 (Listing.raw_text l) else u
  | None => prefix100 (Listing.raw_text l)
  end.

(** The [for listing in listings] loop, on the connection's uncommitted
    view [pending] of the table; [seen_urls] is the set read before the
    loop and [new_listings] the list built so far. An exception raised by
    [cursor.execute] leaves the loop. *)
Fixpoint save_loop (seen_urls : gset string) (now : string)
    (listings : list Listing.t) (pending : db) (new_listings : list Listing.t)
  : exn + (db * list Listing.t) :=
  match listings with
  | [] => inr (pending, new_listings)
  | listing :: rest =>
      let url := resolve listing in
      if bool_decide (url ∉ seen_urls) then
        match sql_insert now listing pending with
        | inl e => inl e
        | inr pending' =>
            save_loop seen_urls now rest pending' (new_listings ++ [listing])
        end
      else
        save_loop seen_urls now rest (sql_update now url pending) new_listings
  end.

(** [save_listings(listings)] run at time [now] on database [d]: the
    database left behind and either the exception raised or the list
    returned. [conn.commit()] is the statement after the loop, so an
    exception leaves the file as it was. *)
Definition save_listings (now : string) (listings : list Listing.t) (d : db)
  : db * (exn + list Listing.t) :=
  let seen_urls := get_seen_listing_urls d in
  match save_loop seen_urls now listings d [] with
  | inl e => (d, inl e)
  | inr (pending, new_listings) => (pending, inr new_listings)
  end.

(** *** One scrape cycle *)

(** What a cycle leaves behind outside the database. *)
Inductive event :=
| DriverStarted
| PageRequested
| PrivacyAccepted
| FiltersOpened (ok : bool)
| CriteriaSet (ok : bool)
| ListingsExtracted (listings : list Listing.t)
| SummaryNotified (new_listings : list Listing.t)
| Notified (listing : Listing.t)
| DriverQuit.

Record world := mkworld {
  store : db;
  log : list event
}.

(** How the browser answers during one cycle. [init_driver] and
    [driver.get] may raise; [accept_privacy_settings],
    [open_search_filters], [set_search_criteria] and [extract_listings]
    catch every exception themselves and answer with a value. *)
Record browser := mkbrowser {
  init_driver : exn + unit;
  driver_get : exn + unit;
  open_search_filters : bool;
  set_search_criteria : bool;
  extract_listings : list Listing.t
}.

(** Computations that change the world and may raise. *)
Definition M (A : Type) : Type := world → world * (exn + A).

#[export] Instance M_ret : MRet M := λ A a w, (w, inr a).
#[export] Instance M_bind : MBind M := λ A B f m w,
  match m w with
  | (w', inl e) => (w', inl e)
  | (w', inr a) => f a w'
  end.

Definition lift {A} (r : exn + A) : M A := λ w, (w, r).
Definition emit (e : event) : M unit :=
  λ w, ({| store := store w; log := log w ++ [e] |}, inr ()).

(** [try: body  except Exception: handler] *)
Definition try_except {A} (body : M A) (handler : exn → M A) : M A := λ w,
  match body w with
  | (w', inl e) => handler e w'
  | r => r
  end.

(** [try: body  finally: cleanup] *)
Definition try_finally {A} (body : M A) (cleanup : M unit) : M A := λ w,
  match body w with
  | (w', r) =>
      match cleanup w' with
      | (w'', inl e) => (w'', inl e)
      | (w'', inr _) => (w'', r)
      end
  end.

(** [save_listings] as a step of the cycle. *)
Definition save_listings_step (now : string) (listings : list Listing.t)
  : M (list Listing.t) := λ w,
  match save_listings now listings (store w) with
  | (d, r) => ({| store := d; log := log w |}, r)
  end.

(** The notifications of a cycle: one summary, then one message per new
    listing; the functions of [notifications.py] catch their own errors. *)
Fixpoint notify_each (new_listings : list Listing.t) : M unit :=
  match new_listings with
  | [] => mret ()
  | listing :: rest => emit (Notified listing);; notify_each rest
  end.

(** The body of the [try] block of [scrape_apartments]. *)
Definition scrape_body (b : browser) (now : string) : M Z :=
  lift (init_driver b);;
  emit DriverStarted;;
  emit PageRequested;;
  lift (driver_get b);;
  emit PrivacyAccepted;;
  emit (FiltersOpened (open_search_filters b));;
  if negb (open_search_filters b) then mret 0 else
  emit (CriteriaSet (set_search_criteria b));;
  if negb (set_search_criteria b) then mret 0 else
  let listings := extract_listings b in
  emit (ListingsExtracted listings);;
  match listings with
  | [] => mret 0
  | _ =>
      new_listings ← save_listings_step now listings;
      let new_listings_count := Z.of_nat (length new_listings) in
      match new_listings with
      | [] => mret new_listings_count
      | _ =>
          emit (SummaryNotified new_listings);;
          notify_each new_listings;;
          mret new_listings_count
      end
  end.

(** [scrape_apartments()]: the [try] body, [except Exception: return 0],
    and [finally: if driver: driver.quit()], where [driver] is set once
    [init_driver] has returned and [driver.quit()] completes. *)
Definition scrape_apartments (b : browser) (now : string) : M Z :=
  try_finally
    (try_except (scrape_body b now) (λ _, mret 0))
    (match init_driver b with
     | inr _ => emit DriverQuit
     | inl _ => mret ()
     end).

End scraper.

(** ** main.py: the scheduler *)

Module main.
Import config scraper.

(** [datetime.now()] as far as the scheduler reads it. *)
Record datetime := mkdatetime {
  hour : Z;
  minute : Z
}.

Definition is_quiet_hours (cfg : config.t) (now : datetime) : bool :=
  if negb (QUIET_HOURS_ENABLED cfg) then false
  else
    let current_hour := hour now in
    let start_hour := QUIET_HOURS_START cfg in
    let end_hour := QUIET_HOURS_END cfg in
    if start_hour >? end_hour
    then (current_hour >=? start_hour) || (current_hour <? end_hour)
    else (start_hour <=? current_hour) && (current_hour <? end_hour).

(** Python's [max(a, b)]: [b] when it is strictly greater, else [a]. *)
Definition py_max (a b : Q) : Q := if Qlt_le_dec a b then b else a.

(** [uniform a b] is the value [random.uniform(a, b)] draws. *)
Definition get_next_interval (cfg : config.t) (uniform : Q → Q → Q)
    (new_listings_found : bool) : Q :=
  let '(base, random_variation) :=
    if new_listings_found
    then (SCRAPE_INTERVAL_NEW_LISTINGS_MINUTES cfg,
          uniform (- SCRAPE_INTERVAL_NEW_LISTINGS_RANDOM_MINUTES cfg)%Q
                  (SCRAPE_INTERVAL_NEW_LISTINGS_RANDOM_MINUTES cfg))
    else (SCRAPE_INTERVAL_MINUTES cfg,
          uniform (- SCRAPE_INTERVAL_RANDOM_MINUTES cfg)%Q
                  (SCRAPE_INTERVAL_RANDOM_MINUTES cfg))
  in
  py_max 1 (base + random_variation)%Q.

(** The [hours_until_end] of the quiet branch. *)
Definition hours_until_end (cfg : config.t) (now : datetime) : Z :=
  let end_hour := QUIET_HOURS_END cfg in
  let current_hour := hour now in
  if QUIET_HOURS_START cfg >? end_hour then
    if current_hour >=? QUIET_HOURS_START cfg
    then (24 - current_hour) + end_hour
    else end_hour - current_hour
  else
    if current_hour <? end_hour
    then end_hour - current_hour
    else (24 - current_hour) + end_hour.

(** [run_scraper_with_scheduling()], at wall-clock time [now]; [stamp] is
    the timestamp [save_listings] reads if the cycle gets that far. *)
Definition run_scraper_with_scheduling (cfg : config.t) (now : datetime)
    (b : browser) (stamp : string) (uniform : Q → Q → Q) : M Q :=
  if is_quiet_hours cfg now then
    let current_minute := minute now in
    let minutes_until_end := hours_until_end cfg now * 60 - current_minute + 5 in
    let next_interval := Z.max 1 minutes_until_end in
    mret (inject_Z next_interval)
  else
    new_listings_count ← scrape_apartments b stamp;
    let new_listings_found := new_listings_count >? 0 in
    mret (get_next_interval cfg uniform new_listings_found).

End main.

(** ** main.py: the wait of [run_scheduler] *)

Module run_scheduler.






End run_scheduler.

(** ** notifications.py *)

Module notifications.

(** The settings of [config.py] that the notification functions read;
    [os.getenv] yields [None] for a variable that is not set. *)
Record settings := mksettings {
  NOTIFICATION_METHOD : string;
  NTFY_TOPIC : string;
  EMAIL_SMTP_SERVER : option string;
  EMAIL_SMTP_PORT : Z;
  EMAIL_USERNAME : option string;
  EMAIL_PASSWORD : option string;
  EMAIL_TO : option string
}.

(** Truth value of a string that may be [None]. *)
Definition truthy (o : option string) : bool :=
  match o with
  | Some s => negb (String.eqb s "")
  | None => false
  end.

Definition double_quote : ascii := "034"%char.
Definition backslash : ascii := "092"%char.
Definition line_feed : ascii := "010"%char.

(** [s.replace(old, new)] for a one-character [old]. *)
Fixpoint replace_char (old : ascii) (new : string) (s : string) : string :=
  match s with
  | EmptyString => EmptyString
  | String c rest =>
      if Ascii.eqb c old then new +:+ replace_char old new rest
      else String c (replace_char old new rest)
  end.

(** The escaping of [send_system_notification]. *)
Definition title_escaped (title : string) : string :=
  replace_char double_quote (String backslash (String double_quote "")) title.

Definition message_escaped (message : string) : string :=
  replace_char line_feed " "
    (replace_char double_quote (String backslash (String double_quote ""))
       message).

(** The AppleScript of [send_system_notification]. *)
Definition script (sound : bool) (title message : string) : string :=
  let q := String double_quote "" in
  let nl := String line_feed "" in
  nl +:+ "            display notification " +:+ q +:+ message_escaped message
     +:+ q +:+ " with title " +:+ q +:+ title_escaped title +:+ q
     +:+ (if sound then " sound name " +:+ q +:+ "Glass" +:+ q else "")
     +:+ nl +:+ "            ".

(** What a notification function hands to the outside. *)
Inductive delivery :=
| Mail (sender recipient subject plain : string) (html : option string)
| NtfyPost (url data title : string)
| OsaScript (source : string).

(** The outside: the platform, and whether a delivery completes ([true])
    or raises inside the [try] block that wraps it ([false]). *)
Record outside := mkoutside {
  platform_system : string;
  completes : delivery → bool
}.

(** Each function yields the deliveries it attempted and its result. *)
Definition send_email_notification (cfg : settings) (out : outside)
    (message subject : string) (html_message image_url : option string)
  : list delivery * bool :=
  if negb (truthy (EMAIL_USERNAME cfg)) || negb (truthy (EMAIL_PASSWORD cfg))
     || negb (truthy (EMAIL_TO cfg))
  then ([], false)
  else
    let d := Mail (default "" (EMAIL_USERNAME cfg)) (default "" (EMAIL_TO cfg))
               subject message
               (if truthy html_message then html_message else None) in
    ([d], completes out d).

Definition send_ntfy_notification (cfg : settings) (out : outside)
    (message title : string) : list delivery * bool :=
  if String.eqb (NTFY_TOPIC cfg) "" then ([], false)
  else
    let d := NtfyPost ("https://ntfy.sh/" +:+ NTFY_TOPIC cfg) message title in
    ([d], completes out d).

Definition send_system_notification (out : outside) (title message : string)
    (sound : bool) : list delivery * bool :=
  if negb (String.eqb (platform_system out) "Darwin") then ([], false)
  else
    let d := OsaScript (script sound title message) in
    ([d], completes out d).

Definition send_notification (cfg : settings) (out : outside)
    (message title : string) (html_message image_url : option string)
  : list delivery * bool :=
  let '(system, _) := send_system_notification out title message true in
  if String.eqb (NOTIFICATION_METHOD cfg) "email" then
    let '(sent, ok) :=
      send_email_notification cfg out message title html_message image_url in
    (system ++ sent, ok)
  else if String.eqb (NOTIFICATION_METHOD cfg) "ntfy" then
    let '(sent, ok) := send_ntfy_notification cfg out message title in
    (system ++ sent, ok)
  else (system, false).

End notifications.

(** ** scraper.py: the image of a notification *)

Module notification_message.

(** The characters [str.strip()] removes, among the first 256 code
    points. *)
Definition is_space (c : ascii) : bool :=
  let n := nat_of_ascii c in
  ((9 <=? n) && (n <=? 13) || (28 <=? n) && (n <=? 32)
   || (n =? 133) || (n =? 160))%nat.

Fixpoint lstrip (s : string) : string :=
  match s with
  | EmptyString => EmptyString
  | String c rest => if is_space c then lstrip rest else s
  end.

Fixpoint rstrip (s : string) : string :=
  match s with
  | EmptyString => EmptyString
  | String c rest =>
      match rstrip rest with
      | EmptyString => if is_space c then EmptyString else String c EmptyString
      | kept => String c kept
      end
  end.

Definition strip (s : string) : string := rstrip (lstrip s).

(** The [image_url] that [scrape_apartments] passes to [send_notification]
    for a new listing. *)
Definition image_url (listing : Listing.t) : string :=
  let image_url := strip (Listing.image_url listing) in
  if negb (String.eqb image_url "")
     && negb (String.prefix "http://" image_url
              || String.prefix "https://" image_url)
  then ""
  else image_url.

(** The condition under which the HTML message carries the [<img>] tag. *)
Definition shows_image (image_url : string) : bool :=
  negb (String.eqb image_url "")
  && (10 <? String.length image_url)%nat
  && String.prefix "http" image_url.

End notification_message.

(** ** scraper.py: [init_database] *)

Module database.

Inductive value :=
| Null
| Integer (z : Z)
| Text (s : string).

(** The [listings] table: its column names in order and its rows, each a
    list of values in column order. Column names are compared as written. *)
Record table := mktable {
  columns : list string;
  records : list (list value)
}.

(** The columns of the [CREATE TABLE] statement. *)
Definition declared_columns : list string :=
  ["id"; "url"; "title"; "address"; "price"; "rooms"; "area"; "extra_costs";
   "wbs"; "image_url"; "raw_text"; "first_seen"; "last_seen"; "notified"].

(** [CREATE TABLE IF NOT EXISTS listings (...)] on a file that holds the
    table ([Some]) or not ([None]). *)
Definition create_table_if_not_exists (file : option table) : table :=
  match file with
  | Some t => t
  | None => {| columns := declared_columns; records := [] |}
  end.

Inductive sql_error :=
| DuplicateColumnName (name : string).

(** [ALTER TABLE listings ADD COLUMN c TEXT]: refused when the column
    exists; otherwise every row receives NULL in the new column. *)
Definition alter_table_add_column (c : string) (t : table) : sql_error + table :=
  if bool_decide (c ∈ columns t) then inl (DuplicateColumnName c)
  else inr {| columns := columns t ++ [c];
              records := (λ r, r ++ [Null]) <$> records t |}.

(** [try: cursor.execute("ALTER TABLE ...")  except: pass] *)
Definition try_add_column (c : string) (t : table) : table :=
  match alter_table_add_column c t with
  | inl _ => t
  | inr t' => t'
  end.

Definition init_database (file : option table) : table :=
  let t := create_table_if_not_exists file in
  let t := try_add_column "extra_costs" t in
  let t := try_add_column "wbs" t in
  let t := try_add_column "image_url" t in
  t.

End database.

(** ** Vocabulary of the properties *)

Import config scraper main.

(** The (base, jitter) pair [get_next_interval] selects, and the offset
    it draws for that pair. *)
Definition selected_base (cfg : config.t) (found_new : bool) : Q :=
  if found_new then SCRAPE_INTERVAL_NEW_LISTINGS_MINUTES cfg
  else SCRAPE_INTERVAL_MINUTES cfg.
Definition selected_jitter (cfg : config.t) (found_new : bool) : Q :=
  if found_new then SCRAPE_INTERVAL_NEW_LISTINGS_RANDOM_MINUTES cfg
  else SCRAPE_INTERVAL_RANDOM_MINUTES cfg.
Definition drawn_offset (cfg : config.t) (uniform : Q → Q → Q)
    (found_new : bool) : Q :=
  uniform (- selected_jitter cfg found_new)%Q (selected_jitter cfg found_new).

(** The world after the [finally] block of [scrape_apartments]: the driver
    is quit when [init_driver] had returned one. *)
Definition after_cleanup (b : browser) (w : world) : world :=
  match init_driver b with
  | inr _ => {| store := store w; log := log w ++ [DriverQuit] |}
  | inl _ => w
  end.

(** The rows an [UPDATE] of the loop reaches: those whose url is the
    identifier of a record of [listings] that is in [seen_urls]. *)
Definition touched (seen_urls : gset string) (listings : list Listing.t)
    (r : Row.t) : Prop :=
  Exists (λ l, resolve l ∈ seen_urls ∧ Row.url r = Some (resolve l)) listings.

Definition touch (seen_urls : gset string) (now : string)
    (listings : list Listing.t) (r : Row.t) : Row.t :=
  if decide (touched seen_urls listings r) then Row.set_last_seen now r else r.

(** Two rows that agree on every column but [last_seen]. *)
Definition same_but_last_seen (r r' : Row.t) : Prop :=
  Row.id r' = Row.id r ∧ Row.url r' = Row.url r ∧
  Row.title r' = Row.title r ∧ Row.address r' = Row.address r ∧
  Row.price r' = Row.price r ∧ Row.rooms r' = Row.rooms r ∧
  Row.area r' = Row.area r ∧ Row.extra_costs r' = Row.extra_costs r ∧
  Row.wbs r' = Row.wbs r ∧ Row.image_url r' = Row.image_url r ∧
  Row.raw_text r' = Row.raw_text r ∧ Row.first_seen r' = Row.first_seen r ∧
  Row.notified r' = Row.notified r.

(** A listing that carries only a url and a raw text. *)
Definition bare_listing (u : option string) (raw : string) : Listing.t :=
  Listing.mk u "" "" "" "" "" "" "" "" raw "".

(** The records a call sends to [INSERT]: those whose identifier is not in
    the set read before the loop. *)
Definition classified_new (seen_urls : gset string)
    (listings : list Listing.t) : list Listing.t :=
  filter (λ l, resolve l ∉ seen_urls) listings.

(** The constraints [init_database] declares on the table: [id] is the
    primary key and the non-NULL values of [url] are unique. *)
Definition keys_ok (d : db) : Prop :=
  NoDup (Row.id <$> rows d) ∧ NoDup (omap Row.url (rows d)).

(** The listings for which a piece of the log records a notification. *)
Definition notified (events : list event) : list Listing.t :=
  omap (λ e, match e with Notified l => Some l | _ => None end) events.

(** Whether a character occurs in a string. *)
Fixpoint occurs (c : ascii) (s : string) : bool :=
  match s with
  | EmptyString => false
  | String c' rest => Ascii.eqb c' c || occurs c rest
  end.

(** Whether a string holds a double quote that does not directly follow a
    backslash; [after_backslash] tells whether the character before the
    string is one. *)
Fixpoint bare_quote (after_backslash : bool) (s : string) : bool :=
  match s with
  | EmptyString => false
  | String c rest =>
      Ascii.eqb c notifications.double_quote && negb after_backslash
      || bare_quote (Ascii.eqb c notifications.backslash) rest
  end.

(** A delivery that is not the system notification. *)
Definition is_channel (d : notifications.delivery) : bool :=
  match d with
  | notifications.OsaScript _ => false
  | _ => true
  end.

(** Successive scrape cycles, each with its own browser answers and its own
    timestamp, as the loop of [run_scheduler] runs them one after the
    other. *)
Fixpoint run_cycles (inputs : list (browser * string)) (w : world) : world :=
  match inputs with
  | [] => w
  | (b, stamp) :: rest => run_cycles rest (fst (scrape_apartments b stamp w))
  end.

(** * Properties *)

(** ** The scheduler *)

(** Case analysis on the integer comparisons of a goal. *)
Ltac zcompare :=
  repeat match goal with
    | |- context [?a >? ?b] => destruct (Z.gtb_spec a b)
    | |- context [?a >=? ?b] => destruct (Z.geb_spec a b)
    | |- context [?a <? ?b] => destruct (Z.ltb_spec a b)
    | |- context [?a <=? ?b] => destruct (Z.leb_spec a b)
    end.

Section scheduler.
Implicit Types (cfg : config.t) (now : datetime) (uniform : Q → Q → Q).

Lemma is_quiet_hours_true cfg now :
  is_quiet_hours cfg now = true ↔
    QUIET_HOURS_ENABLED cfg = true ∧
    if QUIET_HOURS_START cfg >? QUIET_HOURS_END cfg
    then hour now >= QUIET_HOURS_START cfg ∨ hour now < QUIET_HOURS_END cfg
    else QUIET_HOURS_START cfg <= hour now < QUIET_HOURS_END cfg.
Proof.
  unfold is_quiet_hours.
  destruct (QUIET_HOURS_ENABLED cfg); simpl; [|intuition discriminate].
  destruct (QUIET_HOURS_START cfg >? QUIET_HOURS_END cfg).
  - rewrite orb_true_iff, Z.geb_le, Z.ltb_lt. intuition lia.
  - rewrite andb_true_iff, Z.leb_le, Z.ltb_lt. intuition lia.
Qed.

Lemma py_max_Qmax (a b : Q) : (py_max a b == Qmax a b)%Q.
Proof.
  unfold py_max. destruct (Qlt_le_dec a b) as [Hlt|Hle].
  - symmetry. apply Q.max_r. by apply Qlt_le_weak.
  - symmetry. by apply Q.max_l.
Qed.

Lemma py_max_lower (a b : Q) : (a <= py_max a b)%Q.
Proof.
  unfold py_max. destruct (Qlt_le_dec a b) as [Hlt|Hle].
  - by apply Qlt_le_weak.
  - apply Qle_refl.
Qed.

Lemma get_next_interval_unfold cfg uniform found_new :
  get_next_interval cfg uniform found_new
  = py_max 1 (selected_base cfg found_new + drawn_offset cfg uniform found_new)%Q.
Proof. by destruct found_new. Qed.

(** C4. [is_quiet_hours] as a function of the current hour and the
    configuration: never quiet when quiet hours are disabled; with
    [start_hour > end_hour] quiet iff [h >= start_hour] or [h < end_hour];
    otherwise quiet iff [start_hour <= h < end_hour]. With start 21 and
    end 8 it is quiet exactly at the hours 21, 22, 23, 0, ..., 7 and not
    quiet exactly at 8, ..., 20. *)
Theorem is_quiet_hours_window cfg now :
  (QUIET_HOURS_ENABLED cfg = false → is_quiet_hours cfg now = false) ∧
  (QUIET_HOURS_ENABLED cfg = true →
   QUIET_HOURS_START cfg > QUIET_HOURS_END cfg →
     (is_quiet_hours cfg now = true ↔
        hour now >= QUIET_HOURS_START cfg ∨ hour now < QUIET_HOURS_END cfg)) ∧
  (QUIET_HOURS_ENABLED cfg = true →
   QUIET_HOURS_START cfg <= QUIET_HOURS_END cfg →
     (is_quiet_hours cfg now = true ↔
        QUIET_HOURS_START cfg <= hour now < QUIET_HOURS_END cfg)) ∧
  (QUIET_HOURS_ENABLED cfg = true →
   QUIET_HOURS_START cfg = 21 → QUIET_HOURS_END cfg = 8 →
   0 <= hour now < 24 →
     (is_quiet_hours cfg now = true ↔
        hour now ∈ [21; 22; 23; 0; 1; 2; 3; 4; 5; 6; 7]) ∧
     (is_quiet_hours cfg now = false ↔
        hour now ∈ [8; 9; 10; 11; 12; 13; 14; 15; 16; 17; 18; 19; 20])).
Proof.
  split; [|split; [|split]].
  - intros Hoff. unfold is_quiet_hours. by rewrite Hoff.
  - intros Hon Hspan. rewrite is_quiet_hours_true.
    zcompare; [tauto | lia].
  - intros Hon Hflat. rewrite is_quiet_hours_true.
    zcompare; [lia | tauto].
  - intros Hon Hs He Hh.
    rewrite <- not_true_iff_false, is_quiet_hours_true, Hs, He.
    change (21 >? 8) with true. cbv iota.
    rewrite !elem_of_cons, !elem_of_nil. split; split.
    + intros [_ ?]. lia.
    + intros ?. split; [done | lia].
    + intros Hn.
      destruct (decide (hour now >= 21 ∨ hour now < 8)) as [?|?];
        [destruct Hn; by split | lia].
    + intros ? [_ ?]. lia.
Qed.

Lemma is_quiet_hours_window_witness :
  is_quiet_hours config.shipped (mkdatetime 22 10) = true ∧
  is_quiet_hours config.shipped (mkdatetime 8 0) = false.
Proof.
  split.
  - apply (proj2 (proj2 (proj2 (is_quiet_hours_window config.shipped
                                  (mkdatetime 22 10))))); simpl;
      [reflexivity | reflexivity | reflexivity | lia |].
    rewrite !elem_of_cons. auto.
  - apply (proj2 (proj2 (proj2 (is_quiet_hours_window config.shipped
                                  (mkdatetime 8 0))))); simpl;
      [reflexivity | reflexivity | reflexivity | lia |].
    rewrite !elem_of_cons. auto.
Defined.

(** C10. With quiet hours enabled and [QUIET_HOURS_START] equal to
    [QUIET_HOURS_END], [is_quiet_hours] is false at every hour: the window
    is empty. *)
Theorem equal_bounds_never_quiet cfg now :
  QUIET_HOURS_ENABLED cfg = true →
  QUIET_HOURS_START cfg = QUIET_HOURS_END cfg →
  is_quiet_hours cfg now = false.
Proof.
  intros Hon Heq. apply not_true_iff_false.
  rewrite is_quiet_hours_true, Heq, Z.gtb_ltb, Z.ltb_irrefl. lia.
Qed.

Lemma equal_bounds_never_quiet_witness :
  is_quiet_hours (config.mk 5 3 1 (1 # 2) true 8 8) (mkdatetime 8 30) = false.
Proof.
  apply (equal_bounds_never_quiet (config.mk 5 3 1 (1 # 2) true 8 8)
           (mkdatetime 8 30)); reflexivity.
Defined.

(** C5. While [is_quiet_hours] holds, [run_scraper_with_scheduling] leaves
    the world as it found it (no browser step, no write to the store, no
    notification) and returns [max(1, hours_until_end*60 - minute + 5)],
    where for a window that spans midnight [hours_until_end] is
    [(24 - hour) + end_hour] from [start_hour] on and [end_hour - hour]
    before it. At 22:10 with start 21 and end 8 the result is 595. *)
Theorem quiet_hours_resume_interval cfg now b stamp uniform (w : world) :
  is_quiet_hours cfg now = true →
  run_scraper_with_scheduling cfg now b stamp uniform w
    = (w, inr (inject_Z
                 (Z.max 1 (hours_until_end cfg now * 60 - minute now + 5))))
  ∧ (QUIET_HOURS_START cfg > QUIET_HOURS_END cfg →
       (hour now >= QUIET_HOURS_START cfg →
          hours_until_end cfg now = (24 - hour now) + QUIET_HOURS_END cfg) ∧
       (hour now < QUIET_HOURS_START cfg →
          hours_until_end cfg now = QUIET_HOURS_END cfg - hour now))
  ∧ (QUIET_HOURS_START cfg = 21 → QUIET_HOURS_END cfg = 8 →
     hour now = 22 → minute now = 10 →
       run_scraper_with_scheduling cfg now b stamp uniform w
         = (w, inr (inject_Z 595))).
Proof.
  intros Hq. unfold run_scraper_with_scheduling. rewrite Hq.
  split; [reflexivity | split].
  - intros Hspan. unfold hours_until_end.
    split; intros Hh; zcompare; lia.
  - intros Hs He Hh Hm. unfold hours_until_end. by rewrite Hs, He, Hh, Hm.
Qed.

Lemma quiet_hours_resume_interval_witness :
  run_scraper_with_scheduling config.shipped (mkdatetime 22 10)
    (mkbrowser (inr ()) (inr ()) true true []) "2025-01-01T22:10:00"
    (λ a _, a) (mkworld empty_db [])
  = (mkworld empty_db [], inr (inject_Z 595)).
Proof.
  apply (quiet_hours_resume_interval config.shipped (mkdatetime 22 10));
    reflexivity.
Defined.

(** C6. Whatever the outcome flag, and for every offset drawn in
    [[-jitter, +jitter]] of the selected pair, [get_next_interval] returns
    [max(1, base + offset)], which is at least 1; for the new-listings
    pair with base 1 and jitter 0.5 the result lies in [[1, 1.5]]. *)
Theorem get_next_interval_floor cfg uniform found_new :
  let base := selected_base cfg found_new in
  let jitter := selected_jitter cfg found_new in
  let offset := drawn_offset cfg uniform found_new in
  (- jitter <= offset <= jitter)%Q →
  get_next_interval cfg uniform found_new = py_max 1 (base + offset)%Q
  ∧ (get_next_interval cfg uniform found_new == Qmax 1 (base + offset))%Q
  ∧ (1 <= get_next_interval cfg uniform found_new)%Q
  ∧ (found_new = true → (base == 1)%Q → (jitter == 1 # 2)%Q →
       (1 <= get_next_interval cfg uniform found_new <= 3 # 2)%Q).
Proof.
  intros base jitter offset [Hlo Hhi].
  rewrite get_next_interval_unfold. fold base offset.
  split; [reflexivity | split; [apply py_max_Qmax | split]].
  - apply py_max_lower.
  - intros _ Hb Hj. split; [apply py_max_lower |].
    unfold py_max. destruct (Qlt_le_dec 1 (base + offset)); lra.
Qed.

Lemma get_next_interval_floor_witness :
  (1 <= get_next_interval config.shipped (λ _ b, b) true <= 3 # 2)%Q.
Proof.
  apply (get_next_interval_floor config.shipped (λ _ b, b) true);
    [split; discriminate | reflexivity | reflexivity | reflexivity].
Defined.

(** C7, as the code has it. With the selected jitter configured as 0 the
    drawn offset is 0 and [get_next_interval] returns the configured base
    whenever that base is at least 1; a base below 1 is raised to 1. *)
Theorem zero_jitter_returns_base cfg uniform found_new :
  let base := selected_base cfg found_new in
  let jitter := selected_jitter cfg found_new in
  let offset := drawn_offset cfg uniform found_new in
  (jitter == 0)%Q →
  (- jitter <= offset <= jitter)%Q →
  (offset == 0)%Q
  ∧ ((1 <= base)%Q → (get_next_interval cfg uniform found_new == base)%Q)
  ∧ ((base < 1)%Q → (get_next_interval cfg uniform found_new == 1)%Q).
Proof.
  intros base jitter offset Hj [Hlo Hhi].
  assert (offset == 0)%Q as Hoff by lra.
  rewrite get_next_interval_unfold. fold base offset.
  split; [done |].
  unfold py_max. split; intros Hb; destruct (Qlt_le_dec 1 (base + offset)); lra.
Qed.

Lemma zero_jitter_returns_base_witness :
  (get_next_interval (config.mk 5 0 1 0 true 21 8) (λ a _, a) false == 5)%Q.
Proof.
  apply (zero_jitter_returns_base (config.mk 5 0 1 0 true 21 8) (λ a _, a) false);
    [reflexivity | split; discriminate | discriminate].
Defined.

(** C7, as stated, fails for a base below one minute: with base 0.5 and
    jitter 0 the offset is 0 and the result is 1, not 0.5. *)
Lemma zero_jitter_small_base_floored :
  let cfg := config.mk (1 # 2) 0 (1 # 2) 0 true 21 8 in
  let uniform := λ a _ : Q, a in
  (selected_jitter cfg false == 0)%Q
  ∧ (drawn_offset cfg uniform false == 0)%Q
  ∧ (get_next_interval cfg uniform false == 1)%Q
  ∧ ¬ (get_next_interval cfg uniform false == selected_base cfg false)%Q.
Proof. repeat split; discriminate. Qed.

End scheduler.

(** ** The scrape cycle *)

Section cycle.
Implicit Types (b : browser) (w : world) (cfg : config.t).

Lemma scrape_apartments_caught b stamp w w' e :
  scrape_body b stamp w = (w', inl e) →
  scrape_apartments b stamp w = (after_cleanup b w', inr 0).
Proof.
  intros Hbody. unfold scrape_apartments, try_finally, try_except, after_cleanup.
  rewrite Hbody. by destruct (init_driver b).
Qed.

(** C8. An exception raised inside a scrape cycle does not leave
    [scrape_apartments]: the call returns 0 after its cleanup, and outside
    quiet hours [run_scraper_with_scheduling] returns the interval of the
    normal pair, the one for [found_new = false]. *)
Theorem scrape_error_counts_as_nothing_new cfg now b stamp uniform w w' e :
  scrape_body b stamp w = (w', inl e) →
  scrape_apartments b stamp w = (after_cleanup b w', inr 0)
  ∧ (is_quiet_hours cfg now = false →
       run_scraper_with_scheduling cfg now b stamp uniform w
         = (after_cleanup b w', inr (get_next_interval cfg uniform false))
       ∧ get_next_interval cfg uniform false
         = py_max 1 (SCRAPE_INTERVAL_MINUTES cfg
                     + uniform (- SCRAPE_INTERVAL_RANDOM_MINUTES cfg)
                               (SCRAPE_INTERVAL_RANDOM_MINUTES cfg))%Q).
Proof.
  intros Hbody. pose proof (scrape_apartments_caught _ _ _ _ _ Hbody) as Hcatch.
  split; [done |]. intros Hawake. split; [| reflexivity].
  unfold run_scraper_with_scheduling. rewrite Hawake.
  unfold mbind, M_bind. by rewrite Hcatch.
Qed.

Lemma scrape_error_counts_as_nothing_new_witness :
  let twice := [bare_listing (Some "https://example.org/1") "2 Zimmer";
                bare_listing (Some "https://example.org/1") "2 Zimmer"] in
  let b := mkbrowser (inr ()) (inr ()) true true twice in
  let w := mkworld empty_db [] in
  run_scraper_with_scheduling config.shipped (mkdatetime 12 0) b
    "2025-01-01T12:00:00" (λ _ hi, hi) w
  = (mkworld empty_db
       [DriverStarted; PageRequested; PrivacyAccepted; FiltersOpened true;
        CriteriaSet true; ListingsExtracted twice; DriverQuit],
     inr 8%Q).
Proof.
  intros twice b w.
  apply (scrape_error_counts_as_nothing_new config.shipped (mkdatetime 12 0) b
           "2025-01-01T12:00:00" (λ _ hi, hi) w
           (mkworld empty_db
              [DriverStarted; PageRequested; PrivacyAccepted;
               FiltersOpened true; CriteriaSet true; ListingsExtracted twice])
           (IntegrityError "UNIQUE constraint failed: listings.url"));
    [vm_compute; reflexivity | reflexivity].
Defined.

End cycle.

(** ** The listing store *)

Section store.
Implicit Types (d pending : db) (l : Listing.t) (r : Row.t)
  (listings new_listings : list Listing.t) (seen_urls : gset string)
  (now u : string).

Lemma elem_of_seen d u :
  u ∈ get_seen_listing_urls d ↔ Some u ∈ Row.url <$> rows d.
Proof.
  unfold get_seen_listing_urls.
  rewrite elem_of_list_to_set, list_elem_of_omap, list_elem_of_fmap.
  split; intros (r & H1 & H2); exists r; auto.
Qed.

Lemma violates_unique_true o d :
  violates_unique o d = true ↔ ∃ u, o = Some u ∧ u ∈ get_seen_listing_urls d.
Proof.
  destruct o as [u|]; simpl.
  - rewrite bool_decide_eq_true, <- elem_of_seen. split; [eauto |].
    by intros (u' & [= <-] & ?).
  - split; [done | by intros (? & ? & _)].
Qed.

Lemma seen_sql_insert now l d d' u :
  sql_insert now l d = inr d' →
  u ∈ get_seen_listing_urls d' ↔
    u ∈ get_seen_listing_urls d ∨ Listing.url l = Some u.
Proof.
  unfold sql_insert. destruct (violates_unique _ _); [done |].
  intros [= <-]. rewrite !elem_of_seen. cbn [rows].
  rewrite fmap_app, elem_of_app. cbn [fmap list_fmap inserted_row Row.url].
  rewrite list_elem_of_singleton. intuition congruence.
Qed.

Lemma seen_sql_update now u d :
  get_seen_listing_urls (sql_update now u d) = get_seen_listing_urls d.
Proof.
  unfold get_seen_listing_urls, sql_update. simpl. f_equal.
  induction (rows d) as [|r rs IH]; [done |]. csimpl.
  rewrite IH. by destruct (bool_decide _).
Qed.

Lemma sql_insert_raises now l d e :
  sql_insert now l d = inl e →
  e = IntegrityError "UNIQUE constraint failed: listings.url"
  ∧ ∃ u, Listing.url l = Some u ∧ u ∈ get_seen_listing_urls d.
Proof.
  unfold sql_insert. destruct (violates_unique _ _) eqn:Hv; [|done].
  intros [= <-]. split; [done |]. by apply violates_unique_true.
Qed.

(** *** The loop of [save_listings] *)

Lemma save_loop_app seen_urls now xs ys pending new_listings :
  save_loop seen_urls now (xs ++ ys) pending new_listings
  = match save_loop seen_urls now xs pending new_listings with
    | inl e => inl e
    | inr (pending', new') => save_loop seen_urls now ys pending' new'
    end.
Proof.
  revert pending new_listings.
  induction xs as [|x xs IH]; intros pending new_listings; [done |].
  simpl. destruct (bool_decide _); [|apply IH].
  destruct (sql_insert now x pending); [done | apply IH].
Qed.

Lemma save_loop_raises seen_urls now listings pending new_listings e :
  save_loop seen_urls now listings pending new_listings = inl e →
  e = IntegrityError "UNIQUE constraint failed: listings.url".
Proof.
  revert pending new_listings.
  induction listings as [|l ls IH]; intros pending new_listings; [done |].
  simpl. destruct (bool_decide _); [|apply IH].
  destruct (sql_insert now l pending) eqn:Hins; [|apply IH].
  intros [= <-]. by apply sql_insert_raises in Hins as [-> _].
Qed.

(** The list returned: the records whose identifier is not in the set
    read before the loop, in input order. *)
Lemma save_loop_new seen_urls now listings pending new_listings pending' new' :
  save_loop seen_urls now listings pending new_listings = inr (pending', new') →
  new' = new_listings ++ filter (λ l, resolve l ∉ seen_urls) listings.
Proof.
  revert pending new_listings.
  induction listings as [|l ls IH]; intros pending new_listings; simpl.
  - intros [= _ <-]. by rewrite app_nil_r.
  - destruct (decide (resolve l ∉ seen_urls)) as [Hnew|Hold].
    + rewrite bool_decide_eq_true_2, filter_cons_True by done.
      destruct (sql_insert now l pending); [done |].
      intros ->%IH. by rewrite <- app_assoc.
    + rewrite bool_decide_eq_false_2, filter_cons_False by done. apply IH.
Qed.

(** Urls only accumulate, and every record sent to [INSERT] leaves its
    url in the table. *)
Lemma save_loop_seen seen_urls now listings pending new_listings pending' new' :
  save_loop seen_urls now listings pending new_listings = inr (pending', new') →
  get_seen_listing_urls pending ⊆ get_seen_listing_urls pending'
  ∧ ∀ l u, l ∈ listings → resolve l ∉ seen_urls → Listing.url l = Some u →
      u ∈ get_seen_listing_urls pending'.
Proof.
  revert pending new_listings.
  induction listings as [|l ls IH]; intros pending new_listings; simpl.
  - intros [= <- _]. split; [done |]. by intros ?? ?%elem_of_nil.
  - destruct (decide (resolve l ∉ seen_urls)) as [Hnew|Hold].
    + rewrite bool_decide_eq_true_2 by done.
      destruct (sql_insert now l pending) as [|p1] eqn:Hins; [done |].
      intros [Hsub Hin]%IH. split.
      * intros u Hu. apply Hsub. rewrite (seen_sql_insert _ _ _ _ _ Hins). auto.
      * intros l' u [->|Hl']%elem_of_cons Hn Hu; [|by eapply Hin].
        apply Hsub. rewrite (seen_sql_insert _ _ _ _ _ Hins). auto.
    + rewrite bool_decide_eq_false_2 by done.
      intros [Hsub Hin]%IH. rewrite seen_sql_update in Hsub. split; [done |].
      intros l' u [->|Hl']%elem_of_cons Hn Hu; [done | by eapply Hin].
Qed.

(** The loop runs to its end when no record carries the empty string as
    url, no two records carry the same url, and the urls already in the
    table are in the set read before the loop. *)
Lemma save_loop_returns seen_urls now listings pending new_listings :
  NoDup (omap Listing.url listings) →
  (∀ l, l ∈ listings → Listing.url l ≠ Some "") →
  (∀ l u, l ∈ listings → Listing.url l = Some u →
     u ∈ get_seen_listing_urls pending → u ∈ seen_urls) →
  ∃ pending',
    save_loop seen_urls now listings pending new_listings
    = inr (pending',
           new_listings ++ filter (λ l, resolve l ∉ seen_urls) listings).
Proof.
  revert pending new_listings.
  induction listings as [|l ls IH]; intros pending new_listings Hnd Hne Hinv.
  - exists pending. simpl. by rewrite app_nil_r.
  - assert (NoDup (omap Listing.url ls)) as Hnd'.
    { revert Hnd. csimpl. destruct (Listing.url l); [|done].
      by intros [_ ?]%NoDup_cons. }
    assert (∀ l', l' ∈ ls → Listing.url l' ≠ Some "") as Hne'.
    { intros l' Hl'. apply Hne. by right. }
    simpl. destruct (decide (resolve l ∉ seen_urls)) as [Hnew|Hold].
    + rewrite bool_decide_eq_true_2, filter_cons_True by done.
      destruct (sql_insert now l pending) as [e|p1] eqn:Hins.
      * exfalso. apply sql_insert_raises in Hins as [_ (u & Hu & Hseen)].
        apply Hnew. unfold resolve. rewrite Hu.
        rewrite bool_decide_eq_false_2.
        -- apply (Hinv l u); [by left | done | done].
        -- intros ->. by apply (Hne l); [left |].
      * destruct (IH p1 (new_listings ++ [l]) Hnd' Hne') as [p' Hp'].
        -- intros l' u Hl' Hu. rewrite (seen_sql_insert _ _ _ _ _ Hins).
           intros [Hp|Hdup]; [apply (Hinv l' u); [by right | done | done] |].
           exfalso. revert Hnd. csimpl. rewrite Hdup.
           intros [Hnot _]%NoDup_cons. apply Hnot.
           apply list_elem_of_omap. eauto.
        -- exists p'. rewrite Hp'. by rewrite <- app_assoc.
    + rewrite bool_decide_eq_false_2, filter_cons_False by done.
      apply IH; [done | done |].
      intros l' u Hl' Hu. rewrite seen_sql_update.
      apply (Hinv l' u); [by right | done].
Qed.

(** *** What the loop does to the rows *)

Lemma set_last_seen_same now r :
  Row.last_seen r = Some now → Row.set_last_seen now r = r.
Proof. destruct r. simpl. by intros ->. Qed.

Lemma same_but_last_seen_set now r : same_but_last_seen r (Row.set_last_seen now r).
Proof. by repeat split. Qed.

Lemma same_but_last_seen_refl r : same_but_last_seen r r.
Proof. by repeat split. Qed.

Lemma touch_nil seen_urls now r : touch seen_urls now [] r = r.
Proof.
  unfold touch, touched. destruct (decide _) as [H|]; [|done].
  by apply Exists_nil in H.
Qed.

Lemma touch_fixed seen_urls now listings r :
  Row.last_seen r = Some now → touch seen_urls now listings r = r.
Proof.
  intros Hr. unfold touch. destruct (decide _); [|done].
  by apply set_last_seen_same.
Qed.

Lemma touch_cons_new seen_urls now l listings r :
  resolve l ∉ seen_urls →
  touch seen_urls now (l :: listings) r = touch seen_urls now listings r.
Proof.
  intros Hnew. unfold touch, touched.
  destruct (decide (Exists _ (l :: listings))) as [H|H];
    destruct (decide (Exists _ listings)) as [H'|H']; try done.
  - apply Exists_cons in H as [[? _]|?]; done.
  - destruct H. by apply Exists_cons_tl.
Qed.

Lemma touch_cons_old seen_urls now l listings r :
  resolve l ∈ seen_urls →
  touch seen_urls now listings
    (if bool_decide (Row.url r = Some (resolve l))
     then Row.set_last_seen now r else r)
  = touch seen_urls now (l :: listings) r.
Proof.
  intros Hold. unfold touch at 2, touched.
  destruct (decide (Row.url r = Some (resolve l))) as [Hl|Hl].
  - rewrite bool_decide_eq_true_2 by done.
    rewrite touch_fixed by done.
    destruct (decide _) as [|H]; [done |]. destruct H. by apply Exists_cons_hd.
  - rewrite bool_decide_eq_false_2 by done. unfold touch, touched.
    destruct (decide (Exists _ (l :: listings))) as [H|H];
      destruct (decide (Exists _ listings)) as [H'|H']; try done.
    + apply Exists_cons in H as [[_ ?]|?]; done.
    + destruct H. by apply Exists_cons_tl.
Qed.

(** After the loop the table holds the rows it held, those reached by an
    [UPDATE] with [last_seen] set to [now], followed by one new row per
    record sent to [INSERT]. *)
Lemma save_loop_rows seen_urls now listings pending new_listings pending' new' :
  save_loop seen_urls now listings pending new_listings = inr (pending', new') →
  ∃ inserted,
    rows pending' = (touch seen_urls now listings <$> rows pending) ++ inserted
    ∧ length inserted
      = length (filter (λ l, resolve l ∉ seen_urls) listings)
    ∧ Forall (λ r, Row.first_seen r = Some now ∧ Row.last_seen r = Some now)
        inserted.
Proof.
  revert pending new_listings.
  induction listings as [|l ls IH]; intros pending new_listings; simpl.
  - intros [= <- _]. exists []. rewrite app_nil_r. split; [|by split].
    rewrite <- (list_fmap_id (rows pending)) at 1.
    apply list_fmap_ext. intros _ r _. symmetry. apply touch_nil.
  - destruct (decide (resolve l ∉ seen_urls)) as [Hnew|Hold].
    + rewrite bool_decide_eq_true_2, filter_cons_True by done.
      unfold sql_insert. destruct (violates_unique _ _); [done |].
      intros (ins & Hrows & Hlen & Hins)%IH.
      exists (inserted_row (next_rowid pending) now l :: ins).
      split; [|split].
      * rewrite Hrows. cbn [rows]. rewrite fmap_app, <- app_assoc.
        cbn [fmap list_fmap app]. rewrite touch_fixed by done.
        f_equal. apply list_fmap_ext. intros _ r _.
        symmetry. by apply touch_cons_new.
      * simpl. by rewrite Hlen.
      * by constructor.
    + rewrite bool_decide_eq_false_2, filter_cons_False by done.
      apply dec_stable in Hold.
      intros (ins & Hrows & Hlen & Hins)%IH. exists ins.
      split; [|by split].
      rewrite Hrows. unfold sql_update. cbn [rows].
      rewrite <- list_fmap_compose. f_equal.
      apply list_fmap_ext. intros _ r _. by apply touch_cons_old.
Qed.

Lemma resolve_url l u : Listing.url l = Some u → u ≠ "" → resolve l = u.
Proof. intros Hu Hne. unfold resolve. by rewrite Hu, bool_decide_eq_false_2. Qed.

(** *** Ingestion *)

Lemma save_listings_returned now listings d d' new' :
  save_listings now listings d = (d', inr new') →
  save_loop (get_seen_listing_urls d) now listings d [] = inr (d', new').
Proof.
  unfold save_listings.
  destruct (save_loop _ _ _ _ _) as [e|[p acc]]; [done |]. by intros [= <- <-].
Qed.

Lemma filter_all_seen seen_urls listings :
  (∀ l, l ∈ listings → resolve l ∈ seen_urls) →
  filter (λ l, resolve l ∉ seen_urls) listings = [].
Proof.
  induction listings as [|l ls IH]; intros Hall; [done |].
  rewrite filter_cons_False.
  - apply IH. intros l' Hl'. apply Hall. by right.
  - intros Hn. apply Hn, Hall. by left.
Qed.

Lemma row_url_seen d i r u :
  rows d !! i = Some r → Row.url r = Some u → u ∈ get_seen_listing_urls d.
Proof.
  intros Hi Hu. apply elem_of_seen. rewrite <- Hu.
  by eapply list_elem_of_fmap_2, list_elem_of_lookup_2.
Qed.

Lemma touch_same_but_last_seen seen_urls now listings r :
  same_but_last_seen r (touch seen_urls now listings r).
Proof.
  unfold touch. destruct (decide _);
    [apply same_but_last_seen_set | apply same_but_last_seen_refl].
Qed.

Lemma touch_reached seen_urls now listings r l :
  l ∈ listings → resolve l ∈ seen_urls → Row.url r = Some (resolve l) →
  Row.last_seen (touch seen_urls now listings r) = Some now.
Proof.
  intros Hl Hseen Hu. unfold touch, touched.
  destruct (decide _) as [|Hn]; [done |].
  destruct Hn. apply Exists_exists. eauto.
Qed.

Lemma touch_missed seen_urls now listings r :
  (∀ l, l ∈ listings → Row.url r ≠ Some (resolve l)) →
  touch seen_urls now listings r = r.
Proof.
  intros Hmiss. unfold touch, touched. destruct (decide _) as [Hex|]; [|done].
  apply Exists_exists in Hex as (l & Hl & _ & Hu). by destruct (Hmiss l Hl).
Qed.

(** Distinct urls, none of them empty: the call returns, and the store
    afterwards knows every url of the input. *)
Lemma save_listings_distinct_urls now listings d :
  NoDup (omap Listing.url listings) →
  (∀ l, l ∈ listings → Listing.url l ≠ Some "") →
  ∃ d',
    save_listings now listings d
    = (d', inr (filter (λ l, resolve l ∉ get_seen_listing_urls d) listings))
    ∧ get_seen_listing_urls d ⊆ get_seen_listing_urls d'
    ∧ ∀ l u, l ∈ listings → Listing.url l = Some u →
        resolve l = u ∧ u ∈ get_seen_listing_urls d'.
Proof.
  intros Hnd Hne.
  destruct (save_loop_returns (get_seen_listing_urls d) now listings d []
              Hnd Hne) as [d' Hloop]; [auto |].
  exists d'. unfold save_listings. rewrite Hloop. simpl.
  apply save_loop_seen in Hloop as [Hsub Hin].
  split; [done | split; [done |]].
  intros l u Hl Hu.
  assert (resolve l = u) as Hres.
  { apply resolve_url; [done |]. intros ->. by apply (Hne l). }
  split; [done |].
  destruct (decide (u ∈ get_seen_listing_urls d)) as [Hseen|Hnew]; [auto |].
  apply (Hin l u); [done | by rewrite Hres | done].
Qed.

(** C1, as the code has it. When every url present in the input is
    non-empty and no two records carry the same url, [save_listings]
    returns; the list returned holds exactly the records whose resolved
    identity was absent from [get_seen_listing_urls()] as read at the
    start of the call, in input order; and afterwards
    [get_seen_listing_urls()] contains what it contained before and the
    url of every input record that has one. *)
Theorem save_listings_ingest now listings d :
  NoDup (omap Listing.url listings) →
  (∀ l, l ∈ listings → Listing.url l ≠ Some "") →
  ∃ d',
    save_listings now listings d
    = (d', inr (filter (λ l, resolve l ∉ get_seen_listing_urls d) listings))
    ∧ get_seen_listing_urls d ⊆ get_seen_listing_urls d'
    ∧ ∀ l u, l ∈ listings → Listing.url l = Some u →
        resolve l = u ∧ u ∈ get_seen_listing_urls d'.
Proof. apply save_listings_distinct_urls. Qed.

Lemma save_listings_ingest_witness :
  let a := bare_listing (Some "https://example.org/a") "1 Zimmer" in
  let n := bare_listing None "2 Zimmer | Musterweg 1" in
  let b := bare_listing (Some "https://example.org/b") "2 Zimmer" in
  let d := fst (save_listings "2025-01-01T10:00:00" [b] empty_db) in
  ∃ d',
    save_listings "2025-01-01T10:05:00" [a; n; b] d = (d', inr [a; n])
    ∧ get_seen_listing_urls d ⊆ get_seen_listing_urls d'
    ∧ ∀ l u, l ∈ [a; n; b] → Listing.url l = Some u →
        resolve l = u ∧ u ∈ get_seen_listing_urls d'.
Proof.
  intros a n b d.
  apply (save_listings_ingest "2025-01-01T10:05:00" [a; n; b] d).
  - apply (bool_decide_unpack _). vm_compute. exact I.
  - apply Forall_forall. repeat constructor; discriminate.
Defined.

(** C1, as stated, fails in two ways. A record without url is stored with
    a NULL url, so its resolved identity is not in
    [get_seen_listing_urls()] after the call. Two records with the same
    new url make the call raise, and nothing is stored. *)
Lemma save_listings_ingest_gaps :
  let n := bare_listing None "2 Zimmer | Musterweg 1" in
  let a := bare_listing (Some "https://example.org/a") "1 Zimmer" in
  (snd (save_listings "2025-01-01T10:00:00" [n] empty_db) = inr [n]
   ∧ resolve n = "2 Zimmer | Musterweg 1"
   ∧ resolve n ∉ get_seen_listing_urls
                   (fst (save_listings "2025-01-01T10:00:00" [n] empty_db)))
  ∧ (save_listings "2025-01-01T10:00:00" [a; a] empty_db
     = (empty_db, inl (IntegrityError "UNIQUE constraint failed: listings.url"))
     ∧ resolve a = "https://example.org/a"
     ∧ resolve a ∉ get_seen_listing_urls
                     (fst (save_listings "2025-01-01T10:00:00" [a; a] empty_db))).
Proof.
  intros n a. repeat split.
  - apply (bool_decide_eq_false_1 _). by vm_compute.
  - apply (bool_decide_eq_false_1 _). by vm_compute.
Qed.

(** *** Re-observation *)

(** C3. A call to [save_listings] leaves every stored row in its place
    with every column but [last_seen] as it was; a row whose url is not
    the resolved identity of an input record is not modified at all; and
    when the call returns, the row whose url is the resolved identity of
    an input record has [last_seen] set to the time of the call. *)
Theorem known_listing_touches_last_seen_only now listings d i r :
  rows d !! i = Some r →
  ∃ r',
    rows (fst (save_listings now listings d)) !! i = Some r'
    ∧ same_but_last_seen r r'
    ∧ ((∀ l, l ∈ listings → Row.url r ≠ Some (resolve l)) → r' = r)
    ∧ (∀ new' l,
         snd (save_listings now listings d) = inr new' →
         l ∈ listings → Row.url r = Some (resolve l) →
         Row.last_seen r' = Some now).
Proof.
  intros Hi. unfold save_listings.
  destruct (save_loop _ _ _ _ _) as [e|[p acc]] eqn:Hloop; simpl.
  - exists r. split; [done | split; [apply same_but_last_seen_refl |]].
    split; [done | by intros].
  - apply save_loop_rows in Hloop as (ins & Hrows & _ & _).
    exists (touch (get_seen_listing_urls d) now listings r).
    split; [|split; [|split]].
    + rewrite Hrows. apply lookup_app_l_Some.
      by rewrite list_lookup_fmap, Hi.
    + apply touch_same_but_last_seen.
    + apply touch_missed.
    + intros _ l _ Hl Hu. apply (touch_reached _ _ _ _ l); [done | | done].
      by apply (row_url_seen d i r).
Qed.

Lemma known_listing_touches_last_seen_only_witness :
  let a := bare_listing (Some "https://example.org/a") "1 Zimmer" in
  let b := bare_listing (Some "https://example.org/b") "2 Zimmer" in
  let d := fst (save_listings "2025-01-01T10:00:00" [b] empty_db) in
  let r := inserted_row 1 "2025-01-01T10:00:00" b in
  ∃ r',
    rows (fst (save_listings "2025-01-01T10:05:00" [a; b] d)) !! 0%nat = Some r'
    ∧ same_but_last_seen r r'
    ∧ ((∀ l, l ∈ [a; b] → Row.url r ≠ Some (resolve l)) → r' = r)
    ∧ (∀ new' l,
         snd (save_listings "2025-01-01T10:05:00" [a; b] d) = inr new' →
         l ∈ [a; b] → Row.url r = Some (resolve l) →
         Row.last_seen r' = Some "2025-01-01T10:05:00").
Proof.
  intros a b d r.
  apply (known_listing_touches_last_seen_only "2025-01-01T10:05:00" [a; b] d
           0%nat r).
  reflexivity.
Defined.

(** *** Ingesting the same records again *)

(** C2, as the code has it. For a list of records that all carry a
    non-empty url, no two the same, two calls in succession both return,
    the second with the empty list and without changing the number of
    rows; every record has its row after the first call, and the second
    call sets [last_seen] of that row to its own timestamp and keeps every
    other column, [first_seen] being the first call's timestamp when the
    first call inserted the row. *)
Theorem save_listings_twice now1 now2 listings d :
  NoDup (omap Listing.url listings) →
  (∀ l, l ∈ listings → ∃ u, Listing.url l = Some u ∧ u ≠ "") →
  ∃ d1 d2,
    save_listings now1 listings d
    = (d1, inr (filter (λ l, resolve l ∉ get_seen_listing_urls d) listings))
    ∧ save_listings now2 listings d1 = (d2, inr [])
    ∧ length (rows d2) = length (rows d1)
    ∧ (∀ l, l ∈ listings →
         ∃ i r1, rows d1 !! i = Some r1 ∧ Row.url r1 = Listing.url l)
    ∧ (∀ i r1, rows d1 !! i = Some r1 →
         ∃ r2, rows d2 !! i = Some r2
           ∧ same_but_last_seen r1 r2
           ∧ ∀ l, l ∈ listings → Row.url r1 = Listing.url l →
               Row.last_seen r2 = Some now2
               ∧ (resolve l ∉ get_seen_listing_urls d →
                  Row.first_seen r2 = Some now1)).
Proof.
  intros Hnd Hurl.
  assert (∀ l, l ∈ listings → Listing.url l ≠ Some "") as Hne.
  { intros l (u & Hu & Hn)%Hurl. rewrite Hu. by intros [= ->]. }
  destruct (save_listings_distinct_urls now1 listings d Hnd Hne)
    as (d1 & Hfirst & _ & Hknown).
  assert (∀ l, l ∈ listings → resolve l ∈ get_seen_listing_urls d1) as Hall.
  { intros l Hl. destruct (Hurl l Hl) as (u & Hu & _).
    by destruct (Hknown l u Hl Hu) as [-> ?]. }
  destruct (save_listings_distinct_urls now2 listings d1 Hnd Hne)
    as (d2 & Hsecond & _ & _).
  rewrite (filter_all_seen _ _ Hall) in Hsecond.
  pose proof (save_listings_returned _ _ _ _ _ Hfirst) as Hloop1.
  pose proof (save_listings_returned _ _ _ _ _ Hsecond) as Hloop2.
  apply save_loop_rows in Hloop1 as (ins1 & Hrows1 & _ & Hins1).
  apply save_loop_rows in Hloop2 as (ins2 & Hrows2 & Hlen2 & _).
  rewrite (filter_all_seen _ _ Hall) in Hlen2.
  apply nil_length_inv in Hlen2 as ->. rewrite app_nil_r in Hrows2.
  exists d1, d2. split; [done | split; [done | split; [|split]]].
  - by rewrite Hrows2, length_fmap.
  - intros l Hl. destruct (Hurl l Hl) as (u & Hu & _).
    destruct (Hknown l u Hl Hu) as [_ Hseen].
    apply elem_of_seen, list_elem_of_fmap in Hseen as (r1 & Hr1 & Hin).
    apply list_elem_of_lookup in Hin as [i Hi].
    exists i, r1. by rewrite Hu.
  - intros i r1 Hi.
    exists (touch (get_seen_listing_urls d1) now2 listings r1).
    split; [by rewrite Hrows2, list_lookup_fmap, Hi |].
    split; [apply touch_same_but_last_seen |].
    intros l Hl Hsame. destruct (Hurl l Hl) as (u & Hu & Hn).
    pose proof (resolve_url l u Hu Hn) as Hres.
    assert (Row.url r1 = Some (resolve l)) as Hr1 by congruence.
    split.
    + apply (touch_reached _ _ _ _ l); [done | by apply Hall | done].
    + intros Hfresh.
      destruct (touch_same_but_last_seen (get_seen_listing_urls d1) now2
                  listings r1) as (_&_&_&_&_&_&_&_&_&_&_& -> &_).
      rewrite Hrows1 in Hi.
      apply lookup_app_Some in Hi as [Hold|[_ Hnew]].
      * apply list_lookup_fmap_Some in Hold as (r0 & -> & Hr0).
        destruct Hfresh. apply (row_url_seen d i r0); [done |].
        by destruct (touch_same_but_last_seen (get_seen_listing_urls d) now1
                       listings r0) as (_ & <- & _).
      * by apply (Forall_lookup_1 _ _ _ _ Hins1) in Hnew as [? _].
Qed.

Lemma save_listings_twice_witness :
  let a := bare_listing (Some "https://example.org/a") "1 Zimmer" in
  let b := bare_listing (Some "https://example.org/b") "2 Zimmer" in
  let c := bare_listing (Some "https://example.org/c") "2 Zimmer" in
  ∃ d1 d2,
    save_listings "2025-01-01T10:00:00" [a; b; c] empty_db
    = (d1, inr [a; b; c])
    ∧ save_listings "2025-01-01T10:05:00" [a; b; c] d1 = (d2, inr [])
    ∧ length (rows d2) = length (rows d1)
    ∧ (∀ l, l ∈ [a; b; c] →
         ∃ i r1, rows d1 !! i = Some r1 ∧ Row.url r1 = Listing.url l)
    ∧ (∀ i r1, rows d1 !! i = Some r1 →
         ∃ r2, rows d2 !! i = Some r2
           ∧ same_but_last_seen r1 r2
           ∧ ∀ l, l ∈ [a; b; c] → Row.url r1 = Listing.url l →
               Row.last_seen r2 = Some "2025-01-01T10:05:00"
               ∧ (resolve l ∉ get_seen_listing_urls empty_db →
                  Row.first_seen r2 = Some "2025-01-01T10:00:00")).
Proof.
  intros a b c.
  apply (save_listings_twice "2025-01-01T10:00:00" "2025-01-01T10:05:00"
           [a; b; c] empty_db).
  - apply (bool_decide_unpack _). vm_compute. exact I.
  - apply Forall_forall. repeat constructor; eexists; (split; [reflexivity | done]).
Defined.

(** C2, as stated, fails in two ways. A record without url is inserted
    again by the second call, which returns it as new and adds a row. Two
    records with the same new url make both calls raise. *)
Lemma save_listings_twice_gaps :
  let n := bare_listing None "2 Zimmer | Musterweg 1" in
  let a := bare_listing (Some "https://example.org/a") "1 Zimmer" in
  let d1 := fst (save_listings "2025-01-01T10:00:00" [n] empty_db) in
  let d2 := fst (save_listings "2025-01-01T10:05:00" [n] d1) in
  (snd (save_listings "2025-01-01T10:05:00" [n] d1) = inr [n]
   ∧ length (rows d1) = 1%nat ∧ length (rows d2) = 2%nat)
  ∧ (let e1 := fst (save_listings "2025-01-01T10:00:00" [a; a] empty_db) in
     snd (save_listings "2025-01-01T10:05:00" [a; a] e1)
     = inl (IntegrityError "UNIQUE constraint failed: listings.url")).
Proof. intros n a d1 d2. by vm_compute. Qed.

(** *** The same url twice in one call *)

(** C9, as the code has it. When the input holds two records with the
    same non-empty url and that url is not in the store at the start of
    the call, both are classified as new, the call raises the
    [IntegrityError] of the UNIQUE constraint whatever follows the second
    record, and the database is left as it was before the call. *)
Theorem duplicate_new_url_raises now d before l1 between l2 after u :
  Listing.url l1 = Some u → Listing.url l2 = Some u → u ≠ "" →
  u ∉ get_seen_listing_urls d →
  ((resolve l1 ∉ get_seen_listing_urls d)
   ∧ (resolve l2 ∉ get_seen_listing_urls d))
  ∧ save_listings now (before ++ l1 :: between ++ l2 :: after) d
    = (d, inl (IntegrityError "UNIQUE constraint failed: listings.url"))
  ∧ save_listings now (before ++ l1 :: between ++ l2 :: after) d
    = save_listings now (before ++ l1 :: between ++ [l2]) d.
Proof.
  intros Hu1 Hu2 Hne Hfresh.
  pose proof (resolve_url l1 u Hu1 Hne) as Hr1.
  pose proof (resolve_url l2 u Hu2 Hne) as Hr2.
  split; [by rewrite Hr1, Hr2 |].
  assert (∀ rest,
    save_listings now (before ++ l1 :: between ++ l2 :: rest) d
    = (d, inl (IntegrityError "UNIQUE constraint failed: listings.url")))
    as Hraise.
  { intros rest. unfold save_listings.
    replace (before ++ l1 :: between ++ l2 :: rest)
      with ((before ++ l1 :: between) ++ l2 :: rest)
      by (by rewrite <- app_assoc).
    rewrite save_loop_app.
    destruct (save_loop _ now (before ++ l1 :: between) d [])
      as [e|[p acc]] eqn:Hloop.
    - by apply save_loop_raises in Hloop as ->.
    - apply save_loop_seen in Hloop as [_ Hin].
      assert (u ∈ get_seen_listing_urls p) as Hp.
      { apply (Hin l1 u); [|by rewrite Hr1 | done].
        apply elem_of_app. right. by left. }
      simpl. rewrite bool_decide_eq_true_2 by by rewrite Hr2.
      unfold sql_insert.
      replace (violates_unique (Listing.url l2) p) with true; [done |].
      symmetry. apply violates_unique_true. eauto. }
  split; [apply Hraise |]. by rewrite !Hraise.
Qed.

Lemma duplicate_new_url_raises_witness :
  let a := bare_listing (Some "https://example.org/a") "1 Zimmer" in
  let a' := bare_listing (Some "https://example.org/a") "1 Zimmer | neu" in
  let b := bare_listing (Some "https://example.org/b") "2 Zimmer" in
  let c := bare_listing (Some "https://example.org/c") "3 Zimmer" in
  ((resolve a ∉ get_seen_listing_urls empty_db)
   ∧ (resolve a' ∉ get_seen_listing_urls empty_db))
  ∧ save_listings "2025-01-01T10:00:00" ([b] ++ a :: [] ++ a' :: [c]) empty_db
    = (empty_db, inl (IntegrityError "UNIQUE constraint failed: listings.url"))
  ∧ save_listings "2025-01-01T10:00:00" ([b] ++ a :: [] ++ a' :: [c]) empty_db
    = save_listings "2025-01-01T10:00:00" ([b] ++ a :: [] ++ [a']) empty_db.
Proof.
  intros a a' b c.
  apply (duplicate_new_url_raises "2025-01-01T10:00:00" empty_db [b] a [] a'
           [c] "https://example.org/a");
    [reflexivity | reflexivity | discriminate |].
  apply (bool_decide_eq_false_1 _). by vm_compute.
Defined.

(** C9, as stated, fails when the shared url is already in the store:
    both records take the [UPDATE] branch, and the call returns the empty
    list. *)
Lemma duplicate_known_url_returns :
  let a := bare_listing (Some "https://example.org/a") "1 Zimmer" in
  let d := fst (save_listings "2025-01-01T10:00:00" [a] empty_db) in
  Listing.url a = Some "https://example.org/a"
  ∧ save_listings "2025-01-01T10:05:00" [a; a] d
    = ({| rows := [Row.set_last_seen "2025-01-01T10:05:00"
                     (inserted_row 1 "2025-01-01T10:00:00" a)];
          seq := 1 |},
       inr []).
Proof. intros a d. by vm_compute. Qed.

End store.

(** ** More on the listing store *)

Section store_invariants.
Implicit Types (d pending : db) (l : Listing.t) (r : Row.t)
  (listings new_listings : list Listing.t) (seen_urls : gset string)
  (now u : string).

Lemma elem_of_seen_omap d u :
  u ∈ get_seen_listing_urls d ↔ u ∈ omap Row.url (rows d).
Proof. unfold get_seen_listing_urls. by rewrite elem_of_list_to_set. Qed.

Lemma next_rowid_fresh d r : r ∈ rows d → Row.id r < next_rowid d.
Proof.
  unfold next_rowid. intros Hr.
  enough (Row.id r <= foldr (λ r m, Z.max (Row.id r) m) 0 (rows d)) by lia.
  induction (rows d) as [|r' rs IH]; [by apply elem_of_nil in Hr |].
  simpl. apply elem_of_cons in Hr as [->|Hr]; [lia |].
  specialize (IH Hr). lia.
Qed.

Lemma sql_update_ids now u d :
  Row.id <$> rows (sql_update now u d) = Row.id <$> rows d.
Proof.
  unfold sql_update. cbn [rows]. rewrite <- list_fmap_compose.
  apply list_fmap_ext. intros _ r _. simpl. by destruct (bool_decide _).
Qed.

Lemma sql_update_urls now u d :
  omap Row.url (rows (sql_update now u d)) = omap Row.url (rows d).
Proof.
  unfold sql_update. cbn [rows].
  induction (rows d) as [|r rs IH]; [done |]. csimpl.
  rewrite IH. by destruct (bool_decide _).
Qed.

Lemma sql_insert_keys_ok now l d d' :
  keys_ok d → sql_insert now l d = inr d' → keys_ok d'.
Proof.
  intros [Hid Hurl]. unfold sql_insert.
  destruct (violates_unique _ _) eqn:Hv; [done |]. intros [= <-].
  split; cbn [rows].
  - rewrite fmap_app. apply NoDup_app. split; [done | split].
    + intros i (r & -> & Hr)%list_elem_of_fmap [Heq|[]%elem_of_nil]%elem_of_cons.
      apply next_rowid_fresh in Hr. simpl in Heq. lia.
    + apply NoDup_singleton.
  - rewrite omap_app. apply NoDup_app. split; [done | split].
    + intros u Hu. csimpl. destruct (Listing.url l) as [u'|] eqn:Hl;
        [|by intros ?%elem_of_nil].
      intros [->|[]%elem_of_nil]%elem_of_cons.
      apply not_true_iff_false in Hv. apply Hv, violates_unique_true.
      exists u'. split; [done |]. by apply elem_of_seen_omap.
    + csimpl. destruct (Listing.url l); [apply NoDup_singleton | apply NoDup_nil_2].
Qed.

Lemma save_loop_keys_ok seen_urls now listings pending new_listings pending' new' :
  keys_ok pending →
  save_loop seen_urls now listings pending new_listings = inr (pending', new') →
  keys_ok pending'.
Proof.
  revert pending new_listings.
  induction listings as [|l ls IH]; intros pending new_listings Hok; simpl.
  - by intros [= <- _].
  - destruct (bool_decide _).
    + destruct (sql_insert now l pending) as [|p1] eqn:Hins; [done |].
      apply IH. by eapply sql_insert_keys_ok.
    + apply IH. destruct Hok as [Hid Hurl].
      split; [by rewrite sql_update_ids | by rewrite sql_update_urls].
Qed.

(** X1. The keys survive every call: if the ids and the non-NULL urls of
    the table are free of duplicates before [save_listings], they are so
    afterwards, whether the call returns or raises. *)
Theorem save_listings_keeps_keys now listings d :
  keys_ok d → keys_ok (fst (save_listings now listings d)).
Proof.
  intros Hok. unfold save_listings.
  destruct (save_loop _ _ _ _ _) as [e|[p acc]] eqn:Hloop; [done |].
  by eapply save_loop_keys_ok.
Qed.

Lemma save_listings_keeps_keys_witness :
  let a := bare_listing (Some "https://example.org/a") "1 Zimmer" in
  let n := bare_listing None "2 Zimmer | Musterweg 1" in
  keys_ok (fst (save_listings "2025-01-01T10:05:00" [a; n; n]
                  (fst (save_listings "2025-01-01T10:00:00" [n] empty_db)))).
Proof.
  intros a n.
  apply (save_listings_keeps_keys "2025-01-01T10:05:00" [a; n; n]).
  split; apply (bool_decide_unpack _); vm_compute; exact I.
Defined.

Lemma save_loop_returns_iff seen_urls now listings pending new_listings :
  (∃ pending' new', save_loop seen_urls now listings pending new_listings
                    = inr (pending', new'))
  ↔ NoDup (omap Listing.url (classified_new seen_urls listings))
    ∧ ∀ l u, l ∈ classified_new seen_urls listings → Listing.url l = Some u →
        u ∉ get_seen_listing_urls pending.
Proof.
  unfold classified_new. revert pending new_listings.
  induction listings as [|l ls IH]; intros pending new_listings; simpl.
  - split; [|by eauto]. intros _. split; [apply NoDup_nil_2 |].
    by intros ?? ?%elem_of_nil.
  - destruct (decide (resolve l ∉ seen_urls)) as [Hnew|Hold].
    + rewrite bool_decide_eq_true_2, filter_cons_True by done. split.
      * intros (p' & acc' & Hrun).
        destruct (sql_insert now l pending) as [|p1] eqn:Hins; [done |].
        destruct (proj1 (IH p1 (new_listings ++ [l]))) as [Hnd Hfree]; [eauto |].
        assert (∀ u, Listing.url l = Some u → u ∉ get_seen_listing_urls pending)
          as Hl.
        { intros u Hu Hseen. revert Hins. unfold sql_insert.
          replace (violates_unique (Listing.url l) pending) with true; [done |].
          symmetry. apply violates_unique_true. eauto. }
        split.
        -- csimpl. destruct (Listing.url l) as [u|] eqn:Hu; [|done].
           apply NoDup_cons. split; [|done].
           intros (l' & Hl' & Hu')%list_elem_of_omap.
           apply (Hfree l' u Hl' Hu').
           rewrite (seen_sql_insert _ _ _ _ _ Hins). auto.
        -- intros l' u [->|Hl']%elem_of_cons Hu; [by apply Hl |].
           intros Hseen. apply (Hfree l' u Hl' Hu).
           rewrite (seen_sql_insert _ _ _ _ _ Hins). auto.
      * intros [Hnd Hfree].
        destruct (sql_insert now l pending) as [e|p1] eqn:Hins.
        -- apply sql_insert_raises in Hins as [_ (u & Hu & Hseen)].
           destruct (Hfree l u); [by left | done | done].
        -- apply IH. split.
           ++ revert Hnd. csimpl. destruct (Listing.url l); [|done].
              by intros [_ ?]%NoDup_cons.
           ++ intros l' u Hl' Hu. rewrite (seen_sql_insert _ _ _ _ _ Hins).
              intros [Hseen|Hsame].
              ** by apply (Hfree l' u); [right | |].
              ** revert Hnd. csimpl. rewrite Hsame.
                 intros [Hnot _]%NoDup_cons. apply Hnot.
                 apply list_elem_of_omap. eauto.
    + rewrite bool_decide_eq_false_2, filter_cons_False by done.
      rewrite IH. by rewrite seen_sql_update.
Qed.

(** X2. When [save_listings] returns and when it raises. With the records
    whose identifier is absent from the seen set read at the start, the call
    returns exactly when no two of them carry the same url and none carries
    a url already stored; otherwise it raises. *)
Theorem save_listings_returns_iff now listings d :
  (∃ d' new', save_listings now listings d = (d', inr new'))
  ↔ NoDup (omap Listing.url
             (classified_new (get_seen_listing_urls d) listings))
    ∧ ∀ l u, l ∈ classified_new (get_seen_listing_urls d) listings →
        Listing.url l = Some u → u ∉ get_seen_listing_urls d.
Proof.
  rewrite <- (save_loop_returns_iff (get_seen_listing_urls d) now listings d []).
  unfold save_listings.
  destruct (save_loop _ _ _ _ _) as [e|[p acc]]; split.
  - by intros (? & ? & [= _ ?]).
  - by intros (? & ? & ?).
  - eauto.
  - eauto.
Qed.

Lemma save_listings_returns_iff_witness :
  let e := bare_listing (Some "") "2 Zimmer | Musterweg 1" in
  let d := fst (save_listings "2025-01-01T10:00:00" [e] empty_db) in
  ¬ ∃ d' new', save_listings "2025-01-01T10:05:00"
                 [bare_listing (Some "") "3 Zimmer | Musterweg 2"] d
               = (d', inr new').
Proof.
  intros e d Hret.
  apply (proj1 (save_listings_returns_iff "2025-01-01T10:05:00"
                  [bare_listing (Some "") "3 Zimmer | Musterweg 2"] d)) in Hret
    as [_ Hfree].
  apply (Hfree (bare_listing (Some "") "3 Zimmer | Musterweg 2") "").
  - apply list_elem_of_filter. split; [|by left].
    apply (bool_decide_eq_false_1 _). by vm_compute.
  - reflexivity.
  - apply (bool_decide_unpack _). vm_compute. exact I.
Defined.

Lemma save_loop_seen_exact seen_urls now listings pending new_listings
    pending' new' :
  save_loop seen_urls now listings pending new_listings = inr (pending', new') →
  get_seen_listing_urls pending'
  = get_seen_listing_urls pending
    ∪ list_to_set (omap Listing.url (classified_new seen_urls listings)).
Proof.
  unfold classified_new. revert pending new_listings.
  induction listings as [|l ls IH]; intros pending new_listings; simpl.
  - intros [= <- _]. csimpl. by rewrite (right_id_L ∅ (∪)).
  - destruct (decide (resolve l ∉ seen_urls)) as [Hnew|Hold].
    + rewrite bool_decide_eq_true_2, filter_cons_True by done.
      destruct (sql_insert now l pending) as [|p1] eqn:Hins; [done |].
      intros ->%IH. apply set_eq. intros u.
      rewrite !elem_of_union, (seen_sql_insert _ _ _ _ _ Hins). csimpl.
      destruct (Listing.url l) as [u'|]; [|intuition discriminate].
      rewrite list_to_set_cons, elem_of_union, elem_of_singleton.
      intuition congruence.
    + rewrite bool_decide_eq_false_2, filter_cons_False by done.
      intros ->%IH. by rewrite seen_sql_update.
Qed.

(** X3. After a call that returns, [get_seen_listing_urls()] is exactly what
    it was before together with the urls of the records the call classified
    as new; nothing else enters the set and nothing leaves it. *)
Theorem save_listings_seen_exact now listings d d' new' :
  save_listings now listings d = (d', inr new') →
  new' = classified_new (get_seen_listing_urls d) listings
  ∧ get_seen_listing_urls d'
    = get_seen_listing_urls d ∪ list_to_set (omap Listing.url new').
Proof.
  intros Hloop%save_listings_returned.
  pose proof (save_loop_new _ _ _ _ _ _ _ Hloop) as Hnew. simpl in Hnew.
  split; [done |]. rewrite Hnew. by eapply save_loop_seen_exact.
Qed.

Lemma save_listings_seen_exact_witness :
  let a := bare_listing (Some "https://example.org/a") "1 Zimmer" in
  let n := bare_listing None "2 Zimmer | Musterweg 1" in
  let d' := fst (save_listings "2025-01-01T10:00:00" [a; n] empty_db) in
  [a; n] = classified_new (get_seen_listing_urls empty_db) [a; n]
  ∧ get_seen_listing_urls d'
    = get_seen_listing_urls empty_db
      ∪ list_to_set (omap Listing.url [a; n]).
Proof.
  intros a n d'.
  apply (save_listings_seen_exact "2025-01-01T10:00:00" [a; n] empty_db d').
  reflexivity.
Defined.

Lemma save_loop_appended seen_urls now listings pending new_listings
    pending' new' :
  save_loop seen_urls now listings pending new_listings = inr (pending', new') →
  ∃ ids,
    length ids = length (classified_new seen_urls listings)
    ∧ rows pending'
      = (touch seen_urls now listings <$> rows pending)
        ++ zip_with (λ i l, inserted_row i now l) ids
             (classified_new seen_urls listings).
Proof.
  unfold classified_new. revert pending new_listings.
  induction listings as [|l ls IH]; intros pending new_listings; simpl.
  - intros [= <- _]. exists []. split; [done |]. rewrite app_nil_r.
    rewrite <- (list_fmap_id (rows pending)) at 1.
    apply list_fmap_ext. intros _ r _. symmetry. apply touch_nil.
  - destruct (decide (resolve l ∉ seen_urls)) as [Hnew|Hold].
    + rewrite bool_decide_eq_true_2, filter_cons_True by done.
      unfold sql_insert. destruct (violates_unique _ _); [done |].
      intros (ids & Hlen & Hrows)%IH.
      exists (next_rowid pending :: ids). split; [simpl; by rewrite Hlen |].
      rewrite Hrows. cbn [rows zip_with]. rewrite fmap_app, <- app_assoc.
      cbn [fmap list_fmap app]. rewrite touch_fixed by done.
      f_equal. apply list_fmap_ext. intros _ r _.
      symmetry. by apply touch_cons_new.
    + rewrite bool_decide_eq_false_2, filter_cons_False by done.
      apply dec_stable in Hold.
      intros (ids & Hlen & Hrows)%IH. exists ids. split; [done |].
      rewrite Hrows. unfold sql_update. cbn [rows].
      rewrite <- list_fmap_compose. f_equal.
      apply list_fmap_ext. intros _ r _. by apply touch_cons_old.
Qed.

(** X4. What a returning call appends. The table grows by one row per
    record returned, and the k-th returned record is stored in the k-th row
    after the old ones, with its own fields, [first_seen] and [last_seen]
    set to the time of the call and [notified] at 0. *)
Theorem save_listings_appends_new now listings d d' new' :
  save_listings now listings d = (d', inr new') →
  length (rows d') = (length (rows d) + length new')%nat
  ∧ ∀ k l, new' !! k = Some l →
      ∃ i, rows d' !! (length (rows d) + k)%nat = Some (inserted_row i now l).
Proof.
  intros Hloop%save_listings_returned.
  pose proof (save_loop_new _ _ _ _ _ _ _ Hloop) as Hnew. simpl in Hnew.
  apply save_loop_appended in Hloop as (ids & Hlen & Hrows).
  fold (classified_new (get_seen_listing_urls d) listings) in Hnew.
  rewrite <- Hnew in Hlen, Hrows.
  split.
  - rewrite Hrows, length_app, length_fmap, length_zip_with. lia.
  - intros k l Hk.
    destruct (lookup_lt_is_Some_2 ids k) as [i Hi].
    { rewrite Hlen. by eapply lookup_lt_Some. }
    exists i. rewrite Hrows, lookup_app_r by (rewrite length_fmap; lia).
    rewrite length_fmap.
    replace (length (rows d) + k - length (rows d))%nat with k by lia.
    apply lookup_zip_with_Some. eauto.
Qed.

Lemma save_listings_appends_new_witness :
  let a := bare_listing (Some "https://example.org/a") "1 Zimmer" in
  let b := bare_listing (Some "https://example.org/b") "2 Zimmer" in
  let d := fst (save_listings "2025-01-01T10:00:00" [b] empty_db) in
  let d' := fst (save_listings "2025-01-01T10:05:00" [b; a] d) in
  length (rows d') = (length (rows d) + length [a])%nat
  ∧ ∀ k l, [a] !! k = Some l →
      ∃ i, rows d' !! (length (rows d) + k)%nat
           = Some (inserted_row i "2025-01-01T10:05:00" l).
Proof.
  intros a b d d'.
  apply (save_listings_appends_new "2025-01-01T10:05:00" [b; a] d d' [a]).
  reflexivity.
Defined.

(** X5. A record without url never becomes known. When no record of the
    input has a url and no fallback identifier is a stored url, the call
    returns the whole input as new, adds one row per record and leaves
    [get_seen_listing_urls()] as it was, so the next call with the same
    input meets the same conditions. *)
Theorem urlless_records_stay_new now listings d :
  (∀ l, l ∈ listings →
     Listing.url l = None ∧ resolve l ∉ get_seen_listing_urls d) →
  ∃ d',
    save_listings now listings d = (d', inr listings)
    ∧ get_seen_listing_urls d' = get_seen_listing_urls d
    ∧ length (rows d') = (length (rows d) + length listings)%nat.
Proof.
  intros Hall.
  assert (classified_new (get_seen_listing_urls d) listings = listings) as Hcn.
  { unfold classified_new. induction listings as [|l ls IH]; [done |].
    rewrite filter_cons_True by (apply Hall; by left).
    f_equal. apply IH. intros l' Hl'. apply Hall. by right. }
  assert (omap Listing.url listings = []) as Hnone.
  { clear Hcn. induction listings as [|l ls IH]; [done |]. csimpl.
    destruct (Hall l) as [-> _]; [by left |].
    apply IH. intros l' Hl'. apply Hall. by right. }
  destruct (proj2 (save_listings_returns_iff now listings d)) as (d' & new' & Hrun).
  { rewrite Hcn, Hnone. split; [apply NoDup_nil_2 |].
    intros l u Hl Hu. destruct (Hall l Hl) as [Hn _]. congruence. }
  destruct (save_listings_seen_exact _ _ _ _ _ Hrun) as [Hnew Hseen].
  rewrite Hcn in Hnew. subst new'. rewrite Hnone in Hseen.
  exists d'. split; [done | split].
  - by rewrite Hseen, list_to_set_nil, (right_id_L ∅ (∪)).
  - by destruct (save_listings_appends_new _ _ _ _ _ Hrun).
Qed.

Lemma urlless_records_stay_new_witness :
  let n := bare_listing None "2 Zimmer | Musterweg 1" in
  let d := fst (save_listings "2025-01-01T10:00:00" [n] empty_db) in
  ∃ d',
    save_listings "2025-01-01T10:05:00" [n] d = (d', inr [n])
    ∧ get_seen_listing_urls d' = get_seen_listing_urls d
    ∧ length (rows d') = (length (rows d) + length [n])%nat.
Proof.
  intros n d.
  apply (urlless_records_stay_new "2025-01-01T10:05:00" [n] d).
  intros l ->%list_elem_of_singleton. split; [reflexivity |].
  apply (bool_decide_eq_false_1 _). by vm_compute.
Defined.

End store_invariants.

(** ** More on the scrape cycle *)

Section cycle_behaviour.
Implicit Types (b : browser) (w : world) (cfg : config.t).

Lemma notify_each_run new_listings w :
  notify_each new_listings w
  = ({| store := store w; log := log w ++ (Notified <$> new_listings) |}, inr ()).
Proof.
  revert w. induction new_listings as [|l ls IH]; intros w.
  - simpl. rewrite app_nil_r. by destruct w.
  - simpl. unfold mbind, M_bind, emit. rewrite IH. simpl.
    by rewrite <- app_assoc.
Qed.

Lemma notified_app evs1 evs2 : notified (evs1 ++ evs2) = notified evs1 ++ notified evs2.
Proof. apply omap_app. Qed.

Lemma notified_Notified new_listings : notified (Notified <$> new_listings) = new_listings.
Proof.
  induction new_listings as [|l ls IH]; [done |]. unfold notified in *. csimpl.
  by rewrite IH.
Qed.

(** One run of the [try] body, spelled out: what it leaves in the store,
    which events it appends and what it yields. *)
Lemma scrape_body_run b stamp w :
  ∃ evs,
    log (fst (scrape_body b stamp w)) = log w ++ evs
    ∧ match snd (scrape_body b stamp w) with
      | inr n =>
          n = Z.of_nat (length (notified evs))
          ∧ init_driver b = inr ()
          ∧ (notified evs = []
             ∨ save_listings stamp (extract_listings b) (store w)
               = (store (fst (scrape_body b stamp w)), inr (notified evs)))
      | inl e =>
          notified evs = [] ∧ store (fst (scrape_body b stamp w)) = store w
      end
    ∧ match init_driver b with
      | inr _ => head evs = Some DriverStarted
      | inl _ => evs = []
      end
    ∧ (store (fst (scrape_body b stamp w)) = store w
       ∨ store (fst (scrape_body b stamp w))
         = fst (save_listings stamp (extract_listings b) (store w))).
Proof.
  unfold scrape_body, mbind, M_bind, lift, emit, save_listings_step.
  destruct b as [[e|[]] [e'|[]] opened criteria ls]; simpl.
  - exists []. rewrite app_nil_r. repeat split; by left.
  - exists []. rewrite app_nil_r. repeat split; by left.
  - exists [DriverStarted; PageRequested].
    rewrite <- !app_assoc. repeat split; by left.
  - destruct opened; simpl; cycle 1.
    { exists [DriverStarted; PageRequested; PrivacyAccepted; FiltersOpened false].
      rewrite <- !app_assoc. repeat split; by left. }
    destruct criteria; simpl; cycle 1.
    { exists [DriverStarted; PageRequested; PrivacyAccepted; FiltersOpened true;
              CriteriaSet false].
      rewrite <- !app_assoc. repeat split; by left. }
    destruct ls as [|l ls]; simpl.
    { exists [DriverStarted; PageRequested; PrivacyAccepted; FiltersOpened true;
              CriteriaSet true; ListingsExtracted []].
      rewrite <- !app_assoc. repeat split; by left. }
    destruct (save_listings stamp (l :: ls) (store w)) as [d [e|new']] eqn:Hsave;
      simpl.
    { exists [DriverStarted; PageRequested; PrivacyAccepted; FiltersOpened true;
              CriteriaSet true; ListingsExtracted (l :: ls)].
      assert (d = store w) as ->.
      { unfold save_listings in Hsave.
        destruct (save_loop _ _ _ _ _) as [?|[??]]; by inversion Hsave. }
      rewrite <- !app_assoc. repeat split; by left. }
    destruct new' as [|n new']; simpl.
    { exists [DriverStarted; PageRequested; PrivacyAccepted; FiltersOpened true;
              CriteriaSet true; ListingsExtracted (l :: ls)].
      rewrite <- !app_assoc. repeat split; try done; [by left | by right]. }
    change (emit (Notified n) ≫= λ _, notify_each new')
      with (notify_each (n :: new')).
    rewrite notify_each_run. simpl.
    exists ([DriverStarted; PageRequested; PrivacyAccepted; FiltersOpened true;
             CriteriaSet true; ListingsExtracted (l :: ls);
             SummaryNotified (n :: new')] ++ (Notified <$> n :: new')).
    rewrite <- !app_assoc. split; [done |].
    rewrite notified_app, notified_Notified. simpl.
    repeat split; try done; by right.
Qed.

Lemma scrape_apartments_run b stamp w :
  ∃ w' evs,
    scrape_apartments b stamp w
    = (w', inr (Z.of_nat (length (notified evs))))
    ∧ log w' = log w ++ evs
    ∧ (notified evs = []
       ∨ save_listings stamp (extract_listings b) (store w)
         = (store w', inr (notified evs)))
    ∧ (store w' = store w
       ∨ store w' = fst (save_listings stamp (extract_listings b) (store w)))
    ∧ match init_driver b with
      | inr _ => head evs = Some DriverStarted ∧ last evs = Some DriverQuit
      | inl _ => evs = []
      end
    ∧ (∀ e, snd (scrape_body b stamp w) = inl e →
         notified evs = [] ∧ store w' = store w).
Proof.
  destruct (scrape_body_run b stamp w) as (evs & Hlog & Hres & Hdrv & Hstore).
  unfold scrape_apartments, try_finally, try_except.
  destruct (scrape_body b stamp w) as [w1 r]. simpl in *.
  destruct (init_driver b) as [e0|[]] eqn:Hinit.
  - subst evs. destruct r as [e|n]; simpl.
    + exists w1, []. destruct Hres as [_ Hs]. repeat split; auto.
    + by destruct Hres as (_ & ? & _).
  - destruct r as [e|n]; simpl.
    + destruct Hres as [Hn Hs].
      exists {| store := store w1; log := log w1 ++ [DriverQuit] |},
        (evs ++ [DriverQuit]).
      rewrite notified_app, Hn. simpl. rewrite Hlog, <- app_assoc.
      repeat split; auto.
      * by destruct evs.
      * apply last_snoc.
    + destruct Hres as (-> & _ & Hsave).
      exists {| store := store w1; log := log w1 ++ [DriverQuit] |},
        (evs ++ [DriverQuit]).
      rewrite notified_app. simpl. rewrite app_nil_r, Hlog, <- app_assoc.
      repeat split; auto.
      * by destruct evs.
      * apply last_snoc.
      * done.
      * done.
Qed.

(** X6. [scrape_apartments] never raises, whatever the browser does and
    whatever the store holds, and the number it returns is the number of
    per-listing notifications the cycle has sent. *)
Theorem scrape_apartments_counts_notifications b stamp w :
  ∃ w' evs,
    scrape_apartments b stamp w = (w', inr (Z.of_nat (length (notified evs))))
    ∧ log w' = log w ++ evs.
Proof.
  destruct (scrape_apartments_run b stamp w) as (w' & evs & Hrun & Hlog & _).
  eauto.
Qed.

(** X7. Only unseen listings are notified: the listings a cycle notifies
    are records it extracted whose identifier was not in
    [get_seen_listing_urls()] when the cycle began, in the order
    [save_listings] returned them. *)
Theorem notified_listings_were_unseen b stamp w w' r evs :
  scrape_apartments b stamp w = (w', r) →
  log w' = log w ++ evs →
  (notified evs = []
   ∨ notified evs
     = classified_new (get_seen_listing_urls (store w)) (extract_listings b))
  ∧ ∀ l, l ∈ notified evs →
      l ∈ extract_listings b ∧ resolve l ∉ get_seen_listing_urls (store w).
Proof.
  intros Hrun Hlog.
  destruct (scrape_apartments_run b stamp w)
    as (w2 & evs2 & Hrun2 & Hlog2 & Hsave & _).
  rewrite Hrun in Hrun2. injection Hrun2 as <- _.
  rewrite Hlog in Hlog2. apply app_inv_head in Hlog2 as <-.
  destruct Hsave as [Hnone|Hsave].
  - rewrite Hnone. split; [by left |]. by intros ? ?%elem_of_nil.
  - apply save_listings_seen_exact in Hsave as [Hnew _].
    split; [by right |]. intros l Hl. rewrite Hnew in Hl.
    apply list_elem_of_filter in Hl as [? ?]. done.
Qed.

Lemma notified_listings_were_unseen_witness :
  let a := bare_listing (Some "https://example.org/a") "1 Zimmer" in
  let c := bare_listing (Some "https://example.org/c") "3 Zimmer" in
  let b := mkbrowser (inr ()) (inr ()) true true [a; c] in
  let w := mkworld (fst (save_listings "2025-01-01T10:00:00" [a] empty_db)) [] in
  let evs := [DriverStarted; PageRequested; PrivacyAccepted; FiltersOpened true;
              CriteriaSet true; ListingsExtracted [a; c]; SummaryNotified [c];
              Notified c; DriverQuit] in
  (notified evs = []
   ∨ notified evs
     = classified_new (get_seen_listing_urls (store w)) (extract_listings b))
  ∧ ∀ l, l ∈ notified evs →
      l ∈ extract_listings b ∧ resolve l ∉ get_seen_listing_urls (store w).
Proof.
  intros a c b w evs.
  apply (notified_listings_were_unseen b "2025-01-01T10:05:00" w
           (fst (scrape_apartments b "2025-01-01T10:05:00" w))
           (snd (scrape_apartments b "2025-01-01T10:05:00" w)) evs).
  - by destruct (scrape_apartments b "2025-01-01T10:05:00" w).
  - vm_compute. reflexivity.
Defined.

(** X8. The driver is always quit: in every cycle in which [init_driver]
    returned a driver, the first event is the start of the driver and the
    last one is its quit, also when the cycle fails; when [init_driver]
    raises, the cycle leaves no event at all. *)
Theorem driver_always_quit b stamp w w' r evs :
  scrape_apartments b stamp w = (w', r) →
  log w' = log w ++ evs →
  match init_driver b with
  | inr _ => head evs = Some DriverStarted ∧ last evs = Some DriverQuit
  | inl _ => evs = []
  end.
Proof.
  intros Hrun Hlog.
  destruct (scrape_apartments_run b stamp w)
    as (w2 & evs2 & Hrun2 & Hlog2 & _ & _ & Hdrv & _).
  rewrite Hrun in Hrun2. injection Hrun2 as <- _.
  rewrite Hlog in Hlog2. by apply app_inv_head in Hlog2 as <-.
Qed.

Lemma driver_always_quit_witness :
  let b := mkbrowser (inr ()) (inl (WebDriverException "net::ERR_TIMED_OUT"))
             true true [] in
  head [DriverStarted; PageRequested; DriverQuit] = Some DriverStarted
  ∧ last [DriverStarted; PageRequested; DriverQuit] = Some DriverQuit.
Proof.
  intros b.
  apply (driver_always_quit b "2025-01-01T10:05:00" (mkworld empty_db [])
           (mkworld empty_db [DriverStarted; PageRequested; DriverQuit])
           (inr 0) [DriverStarted; PageRequested; DriverQuit]);
    reflexivity.
Defined.

(** X9. A cycle that fails writes nothing and notifies nothing: when an
    exception is raised inside the [try] body, the store after
    [scrape_apartments] is the store before it and no notification is in
    the events of the cycle. *)
Theorem failed_cycle_leaves_store b stamp w w1 e w' r evs :
  scrape_body b stamp w = (w1, inl e) →
  scrape_apartments b stamp w = (w', r) →
  log w' = log w ++ evs →
  store w' = store w ∧ notified evs = [] ∧ r = inr 0.
Proof.
  intros Hbody Hrun Hlog.
  destruct (scrape_apartments_run b stamp w)
    as (w2 & evs2 & Hrun2 & Hlog2 & _ & _ & _ & Hfail).
  rewrite Hrun in Hrun2. injection Hrun2 as <- ->.
  rewrite Hlog in Hlog2. apply app_inv_head in Hlog2 as <-.
  destruct (Hfail e) as [Hn Hs]; [by rewrite Hbody |].
  by rewrite Hn.
Qed.

Lemma failed_cycle_leaves_store_witness :
  let a := bare_listing (Some "https://example.org/a") "1 Zimmer" in
  let c := bare_listing (Some "https://example.org/c") "3 Zimmer" in
  let b := mkbrowser (inr ()) (inr ()) true true [a; c; c] in
  let w := mkworld (fst (save_listings "2025-01-01T10:00:00" [a] empty_db)) [] in
  let evs := [DriverStarted; PageRequested; PrivacyAccepted; FiltersOpened true;
              CriteriaSet true; ListingsExtracted [a; c; c]; DriverQuit] in
  store (fst (scrape_apartments b "2025-01-01T10:05:00" w)) = store w
  ∧ notified evs = []
  ∧ snd (scrape_apartments b "2025-01-01T10:05:00" w) = inr 0.
Proof.
  intros a c b w evs.
  apply (failed_cycle_leaves_store b "2025-01-01T10:05:00" w
           (fst (scrape_body b "2025-01-01T10:05:00" w))
           (IntegrityError "UNIQUE constraint failed: listings.url")
           (fst (scrape_apartments b "2025-01-01T10:05:00" w))
           (snd (scrape_apartments b "2025-01-01T10:05:00" w)) evs).
  - vm_compute. reflexivity.
  - by destruct (scrape_apartments b "2025-01-01T10:05:00" w).
  - vm_compute. reflexivity.
Defined.

End cycle_behaviour.

(** ** More on the scheduler *)

Section scheduler_behaviour.
Implicit Types (cfg : config.t) (now : datetime) (uniform : Q → Q → Q)
  (b : browser) (w : world).

(** X10. [run_scraper_with_scheduling] never raises and the interval it
    returns is at least one minute, in quiet hours and outside them,
    whatever happens in the scrape cycle. *)
Theorem next_interval_always_at_least_one cfg now b stamp uniform w :
  ∃ w' q,
    run_scraper_with_scheduling cfg now b stamp uniform w = (w', inr q)
    ∧ (1 <= q)%Q.
Proof.
  unfold run_scraper_with_scheduling.
  destruct (is_quiet_hours cfg now).
  - eexists _, _. split; [reflexivity |].
    change 1%Q with (inject_Z 1). rewrite <- Zle_Qle. lia.
  - destruct (scrape_apartments_run b stamp w) as (w' & evs & Hrun & _).
    unfold mbind, M_bind. rewrite Hrun.
    eexists _, _. split; [reflexivity |].
    rewrite get_next_interval_unfold. apply py_max_lower.
Qed.

(** X11. The quiet-hours interval ends five minutes after the window. With
    clock and configured hours in their ranges, the interval returned
    during quiet hours needs no floor, is between 6 minutes and 23 hours 5
    minutes, and added to the current time gives [end_hour:05], an instant
    at which [is_quiet_hours] is false. *)
Theorem quiet_interval_reaches_window_end cfg now :
  0 <= QUIET_HOURS_START cfg < 24 → 0 <= QUIET_HOURS_END cfg < 24 →
  0 <= hour now < 24 → 0 <= minute now < 60 →
  is_quiet_hours cfg now = true →
  let minutes_until_end := hours_until_end cfg now * 60 - minute now + 5 in
  Z.max 1 minutes_until_end = minutes_until_end
  ∧ 6 <= minutes_until_end <= 1385
  ∧ (hour now * 60 + minute now + minutes_until_end) mod 1440
    = QUIET_HOURS_END cfg * 60 + 5
  ∧ is_quiet_hours cfg (mkdatetime (QUIET_HOURS_END cfg) 5) = false.
Proof.
  intros Hs He Hh Hm [Hon Hq]%is_quiet_hours_true. cbv zeta.
  assert (hours_until_end cfg now
          = if hour now <? QUIET_HOURS_END cfg
            then QUIET_HOURS_END cfg - hour now
            else 24 - hour now + QUIET_HOURS_END cfg) as ->.
  { unfold hours_until_end. revert Hq. zcompare; lia. }
  split; [|split; [|split]].
  - revert Hq. zcompare; lia.
  - revert Hq. zcompare; lia.
  - revert Hq. zcompare; intros Hq; Z.div_mod_to_equations; lia.
  - apply not_true_iff_false. rewrite is_quiet_hours_true. simpl.
    zcompare; lia.
Qed.

Lemma quiet_interval_reaches_window_end_witness :
  Z.max 1 595 = 595 ∧ 6 <= 595 <= 1385
  ∧ (22 * 60 + 10 + 595) mod 1440 = 8 * 60 + 5
  ∧ is_quiet_hours config.shipped (mkdatetime 8 5) = false.
Proof.
  apply (quiet_interval_reaches_window_end config.shipped (mkdatetime 22 10));
    simpl; try lia. reflexivity.
Defined.

(** X12. Within its bounds the interval is the base plus the offset. For an
    offset drawn in [[-jitter, +jitter]] the result never exceeds
    [max(1, base + jitter)], and when [base - jitter] is at least 1 nothing
    is clipped: the result is [base + offset], between [base - jitter] and
    [base + jitter]. *)
Theorem get_next_interval_ceiling cfg uniform found_new :
  let base := selected_base cfg found_new in
  let jitter := selected_jitter cfg found_new in
  let offset := drawn_offset cfg uniform found_new in
  (- jitter <= offset <= jitter)%Q →
  (get_next_interval cfg uniform found_new <= Qmax 1 (base + jitter))%Q
  ∧ ((1 <= base - jitter)%Q →
       (get_next_interval cfg uniform found_new == base + offset)%Q
       ∧ (base - jitter <= get_next_interval cfg uniform found_new
          <= base + jitter)%Q).
Proof.
  intros base jitter offset [Hlo Hhi].
  rewrite get_next_interval_unfold. fold base offset.
  unfold py_max. split.
  - destruct (Qlt_le_dec 1 (base + offset)).
    + apply Q.max_le_iff. right. lra.
    + apply Q.le_max_l.
  - intros Hb. destruct (Qlt_le_dec 1 (base + offset)); split; lra.
Qed.

Lemma get_next_interval_ceiling_witness :
  (get_next_interval config.shipped (λ lo _, lo) false == 5 + - (3))%Q
  ∧ (5 - 3 <= get_next_interval config.shipped (λ lo _, lo) false <= 5 + 3)%Q.
Proof.
  apply (get_next_interval_ceiling config.shipped (λ lo _, lo) false);
    [split; discriminate | discriminate].
Defined.

Lemma is_quiet_hours_fields cfg now :
  is_quiet_hours cfg now
  = is_quiet_hours
      (config.mk 0 0 0 0 (QUIET_HOURS_ENABLED cfg) (QUIET_HOURS_START cfg)
         (QUIET_HOURS_END cfg))
      (mkdatetime (hour now) 0).
Proof. reflexivity. Qed.

(** X13. The length of the quiet window. With quiet hours enabled and both
    bounds between 0 and 23, the number of hours of the day at which
    [is_quiet_hours] holds is [(end - start) mod 24]: 11 for 21 to 8, and 0
    when the bounds are equal. *)
Theorem quiet_hours_per_day cfg :
  QUIET_HOURS_ENABLED cfg = true →
  0 <= QUIET_HOURS_START cfg < 24 → 0 <= QUIET_HOURS_END cfg < 24 →
  Z.of_nat
    (length (filter (λ h, is_quiet_hours cfg (mkdatetime h 0) = true)
               (seqZ 0 24)))
  = (QUIET_HOURS_END cfg - QUIET_HOURS_START cfg) mod 24.
Proof.
  intros Hon Hs He.
  assert (Forall (λ s, Forall (λ e,
            Z.of_nat
              (length (filter (λ h, is_quiet_hours (config.mk 0 0 0 0 true s e)
                                      (mkdatetime h 0) = true) (seqZ 0 24)))
            = (e - s) mod 24) (seqZ 0 24)) (seqZ 0 24)) as Hall.
  { apply (bool_decide_unpack _). vm_compute. exact I. }
  assert (QUIET_HOURS_START cfg ∈ seqZ 0 24) as Hs' by (apply elem_of_seqZ; lia).
  assert (QUIET_HOURS_END cfg ∈ seqZ 0 24) as He' by (apply elem_of_seqZ; lia).
  pose proof (proj1 (Forall_forall _ _)
                (proj1 (Forall_forall _ _) Hall _ Hs') _ He') as Hlen.
  simpl in Hlen. rewrite <- Hlen. do 2 f_equal.
  apply list_filter_iff. intros h.
  by rewrite (is_quiet_hours_fields cfg), Hon.
Qed.

Lemma quiet_hours_per_day_witness :
  Z.of_nat
    (length (filter (λ h, is_quiet_hours config.shipped (mkdatetime h 0) = true)
               (seqZ 0 24)))
  = (8 - 21) mod 24.
Proof.
  apply (quiet_hours_per_day config.shipped); [reflexivity | simpl; lia ..].
Defined.



End scheduler_behaviour.

(** ** Notifications *)

Section notification_behaviour.
Import notifications.
Implicit Types (cfg : settings) (out : outside) (message title : string)
  (html_message image : option string).

Lemma truthy_true o : truthy o = true ↔ ∃ s, o = Some s ∧ s ≠ "".
Proof.
  destruct o as [s|]; simpl.
  - rewrite negb_true_iff. destruct (String.eqb_spec s ""); split.
    + done.
    + by intros (s' & [= <-] & ?).
    + eauto.
    + done.
  - split; [done | by intros (? & ? & _)].
Qed.

Lemma send_email_notification_result cfg out message subject html_message image :
  snd (send_email_notification cfg out message subject html_message image) = true
  ↔ ∃ u p t,
      EMAIL_USERNAME cfg = Some u ∧ u ≠ ""
      ∧ EMAIL_PASSWORD cfg = Some p ∧ p ≠ ""
      ∧ EMAIL_TO cfg = Some t ∧ t ≠ ""
      ∧ completes out
          (Mail u t subject message
             (if truthy html_message then html_message else None)) = true.
Proof.
  unfold send_email_notification.
  destruct (truthy (EMAIL_USERNAME cfg)) eqn:Hu;
    destruct (truthy (EMAIL_PASSWORD cfg)) eqn:Hp;
    destruct (truthy (EMAIL_TO cfg)) eqn:Ht; simpl.
  2-8: split; [done |];
    intros (u & p & t & Hu' & ? & Hp' & ? & Ht' & ? & _);
    assert (truthy (EMAIL_USERNAME cfg) = true) by (apply truthy_true; eauto);
    assert (truthy (EMAIL_PASSWORD cfg) = true) by (apply truthy_true; eauto);
    assert (truthy (EMAIL_TO cfg) = true) by (apply truthy_true; eauto);
    congruence.
  apply truthy_true in Hu as (u & Hu & ?).
  apply truthy_true in Hp as (p & Hp & ?).
  apply truthy_true in Ht as (t & Ht & ?).
  rewrite Hu, Ht. simpl. split.
  - intros Hok. exists u, p, t. by rewrite Hp.
  - by intros (u' & p' & t' & [= <-] & _ & _ & _ & [= <-] & _ & Hok).
Qed.

Lemma send_ntfy_notification_result cfg out message title :
  snd (send_ntfy_notification cfg out message title) = true
  ↔ NTFY_TOPIC cfg ≠ ""
    ∧ completes out
        (NtfyPost ("https://ntfy.sh/" +:+ NTFY_TOPIC cfg) message title) = true.
Proof.
  unfold send_ntfy_notification.
  destruct (String.eqb_spec (NTFY_TOPIC cfg) ""); simpl;
    [split; [done | by intros [? _]] | tauto].
Qed.

(** X15. What the result of [send_notification] says. It is [True] exactly
    when the configured method is ["email"], user name, password and
    recipient are all set and non-empty and the mail went out, or the
    method is ["ntfy"], the topic is non-empty and the post went out. *)
Theorem send_notification_result cfg out message title html_message image :
  snd (send_notification cfg out message title html_message image) = true
  ↔ (NOTIFICATION_METHOD cfg = "email"
     ∧ ∃ u p t,
         EMAIL_USERNAME cfg = Some u ∧ u ≠ ""
         ∧ EMAIL_PASSWORD cfg = Some p ∧ p ≠ ""
         ∧ EMAIL_TO cfg = Some t ∧ t ≠ ""
         ∧ completes out
             (Mail u t title message
                (if truthy html_message then html_message else None)) = true)
    ∨ (NOTIFICATION_METHOD cfg = "ntfy"
       ∧ NTFY_TOPIC cfg ≠ ""
       ∧ completes out
           (NtfyPost ("https://ntfy.sh/" +:+ NTFY_TOPIC cfg) message title)
         = true).
Proof.
  pose proof (send_email_notification_result cfg out message title html_message
                image) as Hmail.
  pose proof (send_ntfy_notification_result cfg out message title) as Hntfy.
  unfold send_notification.
  destruct (send_system_notification out title message true) as [system _].
  destruct (String.eqb_spec (NOTIFICATION_METHOD cfg) "email") as [He|He].
  - destruct (send_email_notification _ _ _ _ _ _) as [sent ok]. simpl in *.
    rewrite Hmail, He. split; [by left | intros [[_ ?]|[? _]]; done].
  - destruct (String.eqb_spec (NOTIFICATION_METHOD cfg) "ntfy") as [Hn|Hn].
    + destruct (send_ntfy_notification _ _ _ _) as [sent ok]. simpl in *.
      rewrite Hntfy. split; [by right | intros [[? _]|[_ ?]]; done].
    + simpl. split; [done | intros [[? _]|[? _]]; done].
Qed.

Lemma send_notification_result_witness :
  let cfg := mksettings "ntfy" "wohnung" None 587 None None None in
  let out := mkoutside "Linux" (λ _, true) in
  snd (send_notification cfg out "New apartment found!" "New Apartment Listing"
         None None) = true.
Proof.
  intros cfg out.
  apply (proj2 (send_notification_result cfg out "New apartment found!"
                  "New Apartment Listing" None None)).
  right. repeat split; done.
Defined.

(** X16. The system notification is advisory. Two outside worlds that agree
    on e-mail and ntfy deliveries give [send_notification] the same result
    and the same e-mail or ntfy attempts, whatever the platform is and
    whether or not [osascript] fails; at most one such attempt is made, and
    it comes after the system notification. *)
Theorem system_notification_is_advisory cfg out out' message title
    html_message image :
  (∀ d, is_channel d = true → completes out d = completes out' d) →
  snd (send_notification cfg out message title html_message image)
  = snd (send_notification cfg out' message title html_message image)
  ∧ filter (λ d, is_channel d = true)
      (fst (send_notification cfg out message title html_message image))
    = filter (λ d, is_channel d = true)
        (fst (send_notification cfg out' message title html_message image))
  ∧ ∃ sent,
      fst (send_notification cfg out message title html_message image)
      = fst (send_system_notification out title message true) ++ sent
      ∧ (length sent <= 1)%nat
      ∧ Forall (λ d, is_channel d = true) sent.
Proof.
  intros Hsame.
  unfold send_notification, send_system_notification, send_email_notification,
    send_ntfy_notification.
  destruct (negb (String.eqb (platform_system out) "Darwin"));
    destruct (negb (String.eqb (platform_system out') "Darwin"));
    destruct (String.eqb (NOTIFICATION_METHOD cfg) "email");
    destruct (String.eqb (NOTIFICATION_METHOD cfg) "ntfy");
    destruct (negb (truthy (EMAIL_USERNAME cfg))
              || negb (truthy (EMAIL_PASSWORD cfg))
              || negb (truthy (EMAIL_TO cfg)));
    destruct (String.eqb (NTFY_TOPIC cfg) ""); simpl.
  all: repeat split; try (by apply Hsame).
  all: eexists; (split; [reflexivity |]); simpl; split; try lia.
  all: by repeat constructor.
Qed.

Lemma system_notification_is_advisory_witness :
  let cfg := mksettings "ntfy" "wohnung" None 587 None None None in
  let mac := mkoutside "Darwin" is_channel in
  let linux := mkoutside "Linux" (λ _, true) in
  snd (send_notification cfg mac "New apartment found!" "New" None None)
  = snd (send_notification cfg linux "New apartment found!" "New" None None)
  ∧ filter (λ d, is_channel d = true)
      (fst (send_notification cfg mac "New apartment found!" "New" None None))
    = filter (λ d, is_channel d = true)
        (fst (send_notification cfg linux "New apartment found!" "New" None None))
  ∧ ∃ sent,
      fst (send_notification cfg mac "New apartment found!" "New" None None)
      = fst (send_system_notification mac "New" "New apartment found!" true)
        ++ sent
      ∧ (length sent <= 1)%nat
      ∧ Forall (λ d, is_channel d = true) sent.
Proof.
  intros cfg mac linux.
  apply (system_notification_is_advisory cfg mac linux).
  intros d Hd. simpl. by rewrite Hd.
Defined.

Lemma bare_quote_escape after s :
  bare_quote after
    (replace_char double_quote (String backslash (String double_quote "")) s)
  = false.
Proof.
  revert after. induction s as [|c s IH]; intros after; [done |].
  simpl. destruct (Ascii.eqb_spec c double_quote) as [->|Hc].
  - simpl. apply IH.
  - simpl. rewrite IH. destruct (Ascii.eqb_spec c double_quote); [done |].
    by destruct after.
Qed.

Lemma bare_quote_replace_line_feed after s :
  bare_quote after (replace_char line_feed " " s) = bare_quote after s.
Proof.
  revert after. induction s as [|c s IH]; intros after; [done |].
  simpl. destruct (Ascii.eqb_spec c line_feed) as [->|Hc]; simpl; by rewrite IH.
Qed.

Lemma occurs_replace_line_feed s :
  occurs line_feed (replace_char line_feed " " s) = false.
Proof.
  induction s as [|c s IH]; [done |].
  simpl. destruct (Ascii.eqb_spec c line_feed) as [->|Hc]; simpl; [done |].
  rewrite IH. by destruct (Ascii.eqb_spec c line_feed).
Qed.

(** X17. What the escaping of [send_system_notification] achieves. In the
    escaped message no line feed is left, and in the escaped message and
    the escaped title every double quote directly follows a backslash. *)
Theorem system_notification_text_escaped title message :
  occurs line_feed (message_escaped message) = false
  ∧ bare_quote false (message_escaped message) = false
  ∧ bare_quote false (title_escaped title) = false.
Proof.
  unfold message_escaped, title_escaped. split; [|split].
  - apply occurs_replace_line_feed.
  - rewrite bare_quote_replace_line_feed. apply bare_quote_escape.
  - apply bare_quote_escape.
Qed.

End notification_behaviour.

(** ** The image of a notification *)

Section image_behaviour.
Import notification_message.

(** One character of a successful [String.prefix] test. *)
Ltac peel_prefix H s :=
  destruct s as [|? s]; cbn [String.prefix] in H; [discriminate H |];
  destruct (ascii_dec _ _) in H; [subst | discriminate H].

Lemma prefix_shorter (s : string) :
  String.prefix "http://" s = true ∨ String.prefix "https://" s = true →
  String.prefix "http" s = true ∧ (7 <= String.length s)%nat.
Proof.
  intros [H|H].
  - do 7 peel_prefix H s. simpl. split; [reflexivity | lia].
  - do 8 peel_prefix H s. simpl. split; [reflexivity | lia].
Qed.

(** X18. The image url handed to [send_notification] is empty or begins
    with [http://] or [https://], whatever the listing holds, and the HTML
    message shows the image exactly when that url is longer than 10
    characters. *)
Theorem notification_image_is_web_url (listing : Listing.t) :
  (image_url listing = ""
   ∨ String.prefix "http://" (image_url listing) = true
   ∨ String.prefix "https://" (image_url listing) = true)
  ∧ shows_image (image_url listing)
    = (10 <? String.length (image_url listing))%nat.
Proof.
  assert (image_url listing = ""
          ∨ String.prefix "http://" (image_url listing) = true
          ∨ String.prefix "https://" (image_url listing) = true) as Hweb.
  { unfold image_url.
    destruct (String.eqb_spec (strip (Listing.image_url listing)) "") as [->|Hne];
      [by left |].
    destruct (String.prefix "http://" _) eqn:H1; [by right; left |].
    destruct (String.prefix "https://" _) eqn:H2; [by right; right |].
    by left. }
  split; [done |]. unfold shows_image.
  destruct Hweb as [->|Hweb]; [done |].
  destruct (prefix_shorter _ Hweb) as [-> Hlen].
  destruct (String.eqb_spec (image_url listing) "") as [Hempty|_].
  - rewrite Hempty in Hlen. simpl in Hlen. lia.
  - simpl. by rewrite andb_true_r.
Qed.

End image_behaviour.

(** ** The schema *)

Section schema.
Import database.
Implicit Types (t : table) (c : string).

Lemma try_add_column_present c t : c ∈ columns t → try_add_column c t = t.
Proof.
  intros Hc. unfold try_add_column, alter_table_add_column.
  by rewrite bool_decide_eq_true_2.
Qed.

Lemma try_add_column_absent c t :
  c ∉ columns t →
  try_add_column c t
  = {| columns := columns t ++ [c]; records := (λ r, r ++ [Null]) <$> records t |}.
Proof.
  intros Hc. unfold try_add_column, alter_table_add_column.
  by rewrite bool_decide_eq_false_2.
Qed.

(** Membership of a column name in a list of columns that grew by a few
    names. *)
Ltac column_side :=
  simpl; rewrite ?elem_of_app, ?list_elem_of_singleton;
  intuition (auto; discriminate).

Lemma try_add_column_in c t : c ∈ columns (try_add_column c t).
Proof.
  destruct (decide (c ∈ columns t)) as [Hc|Hc].
  - by rewrite try_add_column_present.
  - rewrite try_add_column_absent by done. simpl.
    apply elem_of_app. right. by left.
Qed.

Lemma try_add_column_keeps c c' t :
  c' ∈ columns t → c' ∈ columns (try_add_column c t).
Proof.
  intros Hc'. destruct (decide (c ∈ columns t)) as [Hc|Hc].
  - by rewrite try_add_column_present.
  - rewrite try_add_column_absent by done. simpl.
    apply elem_of_app. by left.
Qed.

(** X19. [init_database] can be run on every start: running it on the
    table it produced changes nothing, and after any run the table has the
    columns [extra_costs], [wbs] and [image_url]. *)
Theorem init_database_idempotent (file : option table) :
  init_database (Some (init_database file)) = init_database file
  ∧ "extra_costs" ∈ columns (init_database file)
  ∧ "wbs" ∈ columns (init_database file)
  ∧ "image_url" ∈ columns (init_database file).
Proof.
  assert ("extra_costs" ∈ columns (init_database file)
          ∧ "wbs" ∈ columns (init_database file)
          ∧ "image_url" ∈ columns (init_database file)) as (H1 & H2 & H3).
  { unfold init_database. cbv zeta.
    set (t0 := create_table_if_not_exists file).
    repeat split.
    - do 2 apply try_add_column_keeps. apply try_add_column_in.
    - apply try_add_column_keeps, try_add_column_in.
    - apply try_add_column_in. }
  split; [|done].
  unfold init_database at 1. cbv zeta. simpl.
  rewrite (try_add_column_present "extra_costs") by done.
  rewrite (try_add_column_present "wbs") by done.
  by rewrite (try_add_column_present "image_url").
Qed.

(** X20. [init_database] upgrades an older table without losing data. On
    an existing table it keeps the columns in place, appends those of
    [extra_costs], [wbs] and [image_url] that are missing, in this order,
    keeps the number of rows, and extends every row by one NULL per added
    column, leaving the values it held untouched. *)
Theorem init_database_upgrades t :
  let added := filter (λ c, c ∉ columns t) ["extra_costs"; "wbs"; "image_url"] in
  columns (init_database (Some t)) = columns t ++ added
  ∧ records (init_database (Some t))
    = (λ r, r ++ replicate (length added) Null) <$> records t.
Proof.
  cbv zeta. unfold init_database. cbv zeta. simpl.
  destruct t as [cols rs]. simpl.
  destruct (decide ("extra_costs" ∈ cols)) as [H1|H1];
    destruct (decide ("wbs" ∈ cols)) as [H2|H2];
    destruct (decide ("image_url" ∈ cols)) as [H3|H3].
  all: repeat first
         [ rewrite filter_cons_True by done
         | rewrite filter_cons_False by (intros Hn; by destruct Hn) ].
  all: rewrite filter_nil.
  all: first [ rewrite (try_add_column_present "extra_costs") by done
             | rewrite (try_add_column_absent "extra_costs") by done ].
  all: first [ rewrite (try_add_column_present "wbs") by column_side
             | rewrite (try_add_column_absent "wbs") by column_side ].
  all: first [ rewrite (try_add_column_present "image_url") by column_side
             | rewrite (try_add_column_absent "image_url") by column_side ].
  all: simpl; rewrite <- ?list_fmap_compose, <- ?app_assoc.
  1: rewrite <- (list_fmap_id rs) at 1.
  all: split; [by rewrite ?app_nil_r |].
  all: apply list_fmap_ext; intros _ r _; simpl.
  all: by rewrite <- ?app_assoc, ?app_nil_r.
Qed.

End schema.

(** ** Across cycles *)

Section across_cycles.
Implicit Types (b : browser) (w : world) (cfg : config.t).

Lemma save_listings_seen_grows now listings d :
  get_seen_listing_urls d
  ⊆ get_seen_listing_urls (fst (save_listings now listings d)).
Proof.
  destruct (save_listings now listings d) as [d' [e|new']] eqn:Hsave.
  - unfold save_listings in Hsave.
    destruct (save_loop _ _ _ _ _) as [?|[??]]; by inversion Hsave.
  - apply save_listings_seen_exact in Hsave as [_ Hseen]. simpl.
    rewrite Hseen. apply union_subseteq_l.
Qed.

(** One cycle, seen from the store: the urls of the listings it notifies
    are pairwise distinct, were not in the seen set before and are in it
    afterwards, and the seen set has not lost anything. *)
Lemma cycle_notifies_fresh_urls b stamp w :
  ∃ evs,
    log (fst (scrape_apartments b stamp w)) = log w ++ evs
    ∧ NoDup (omap Listing.url (notified evs))
    ∧ get_seen_listing_urls (store w)
      ⊆ get_seen_listing_urls (store (fst (scrape_apartments b stamp w)))
    ∧ ∀ u, u ∈ omap Listing.url (notified evs) →
        (u ∉ get_seen_listing_urls (store w))
        ∧ u ∈ get_seen_listing_urls (store (fst (scrape_apartments b stamp w))).
Proof.
  destruct (scrape_apartments_run b stamp w)
    as (w' & evs & Hrun & Hlog & Hsave & Hstore & _).
  rewrite Hrun. simpl. exists evs. split; [done |].
  assert (get_seen_listing_urls (store w) ⊆ get_seen_listing_urls (store w'))
    as Hgrow.
  { destruct Hstore as [->| ->]; [done | apply save_listings_seen_grows]. }
  destruct Hsave as [Hnone|Hsave].
  - rewrite Hnone. split; [apply NoDup_nil_2 |]. split; [done |].
    by intros u ?%elem_of_nil.
  - pose proof (proj1 (save_listings_returns_iff stamp (extract_listings b)
                         (store w))) as Hret.
    destruct Hret as [Hnd Hfree]; [eauto |].
    destruct (save_listings_seen_exact _ _ _ _ _ Hsave) as [Hnew Hseen].
    rewrite <- Hnew in Hnd, Hfree.
    split; [done |]. split; [done |].
    intros u Hu. split.
    + apply list_elem_of_omap in Hu as (l & Hl & Hu). by apply (Hfree l u).
    + rewrite Hseen. apply elem_of_union. right. by apply elem_of_list_to_set.
Qed.

(** X21. No url is notified twice. Over any number of successive cycles,
    whatever the browser returns in each of them, the urls of all listings
    notified along the way are pairwise distinct, none of them was in
    [get_seen_listing_urls()] at the start, and all of them are in it at
    the end. *)
Theorem no_url_notified_twice (inputs : list (browser * string)) w :
  ∃ evs,
    log (run_cycles inputs w) = log w ++ evs
    ∧ NoDup (omap Listing.url (notified evs))
    ∧ get_seen_listing_urls (store w)
      ⊆ get_seen_listing_urls (store (run_cycles inputs w))
    ∧ ∀ u, u ∈ omap Listing.url (notified evs) →
        (u ∉ get_seen_listing_urls (store w))
        ∧ u ∈ get_seen_listing_urls (store (run_cycles inputs w)).
Proof.
  revert w. induction inputs as [|[b stamp] rest IH]; intros w; simpl.
  - exists []. rewrite app_nil_r. split; [done |].
    split; [apply NoDup_nil_2 |]. split; [done |]. by intros u ?%elem_of_nil.
  - destruct (cycle_notifies_fresh_urls b stamp w)
      as (evs1 & Hlog1 & Hnd1 & Hgrow1 & Hfresh1).
    destruct (IH (fst (scrape_apartments b stamp w)))
      as (evs2 & Hlog2 & Hnd2 & Hgrow2 & Hfresh2).
    exists (evs1 ++ evs2).
    split; [by rewrite Hlog2, Hlog1, app_assoc |].
    rewrite notified_app, omap_app.
    split; [|split].
    + apply NoDup_app. split; [done | split; [|done]].
      intros u Hu1 Hu2.
      destruct (Hfresh1 u Hu1) as [_ Hin]. by destruct (Hfresh2 u Hu2).
    + by etrans.
    + intros u [Hu|Hu]%elem_of_app.
      * destruct (Hfresh1 u Hu) as [Hout Hin]. split; [done |]. by apply Hgrow2.
      * destruct (Hfresh2 u Hu) as [Hout Hin]. split; [|done].
        intros Hseen. by apply Hout, Hgrow1.
Qed.

Lemma no_url_notified_twice_witness :
  let a := bare_listing (Some "https://example.org/a") "1 Zimmer" in
  let c := bare_listing (Some "https://example.org/c") "3 Zimmer" in
  let first := (mkbrowser (inr ()) (inr ()) true true [a], "2025-01-01T10:00:00") in
  let second := (mkbrowser (inr ()) (inr ()) true true [a; c], "2025-01-01T10:05:00") in
  let w := mkworld empty_db [] in
  ∃ evs,
    log (run_cycles [first; second; second] w) = log w ++ evs
    ∧ NoDup (omap Listing.url (notified evs))
    ∧ get_seen_listing_urls (store w)
      ⊆ get_seen_listing_urls (store (run_cycles [first; second; second] w))
    ∧ ∀ u, u ∈ omap Listing.url (notified evs) →
        (u ∉ get_seen_listing_urls (store w))
        ∧ u ∈ get_seen_listing_urls
                (store (run_cycles [first; second; second] w)).
Proof.
  intros a c first second w.
  apply (no_url_notified_twice [first; second; second] w).
Defined.

(** X22. The short interval follows a notification. Outside quiet hours
    [run_scraper_with_scheduling] returns the interval of the new-listings
    pair exactly when the cycle it ran has sent at least one per-listing
    notification, and the interval of the normal pair otherwise. *)
Theorem short_interval_iff_notified cfg now b stamp uniform w :
  is_quiet_hours cfg now = false →
  ∃ w' evs,
    run_scraper_with_scheduling cfg now b stamp uniform w
    = (w', inr (get_next_interval cfg uniform
                  (bool_decide (notified evs ≠ []))))
    ∧ log w' = log w ++ evs.
Proof.
  intros Hawake. unfold run_scraper_with_scheduling. rewrite Hawake.
  destruct (scrape_apartments_run b stamp w) as (w' & evs & Hrun & Hlog & _).
  unfold mbind, M_bind. rewrite Hrun. exists w', evs. split; [|done].
  assert ((Z.of_nat (length (notified evs)) >? 0)
          = bool_decide (notified evs ≠ [])) as ->; [|done].
  destruct (notified evs) as [|l ls].
  - by rewrite bool_decide_eq_false_2 by (by intros []).
  - rewrite bool_decide_eq_true_2 by done. apply Z.gtb_lt. simpl. lia.
Qed.

Lemma short_interval_iff_notified_witness :
  let a := bare_listing (Some "https://example.org/a") "1 Zimmer" in
  let b := mkbrowser (inr ()) (inr ()) true true [a] in
  let w := mkworld empty_db [] in
  ∃ w' evs,
    run_scraper_with_scheduling config.shipped (mkdatetime 12 0) b
      "2025-01-01T12:00:00" (λ _ hi, hi) w
    = (w', inr (get_next_interval config.shipped (λ _ hi, hi)
                  (bool_decide (notified evs ≠ []))))
    ∧ log w' = log w ++ evs.
Proof.
  intros a b w.
  apply (short_interval_iff_notified config.shipped (mkdatetime 12 0) b
           "2025-01-01T12:00:00" (λ _ hi, hi) w).
  reflexivity.
Defined.

End across_cycles.
